(** * Aligned read stub of xen-api-libs ([stdext/unixext_read_stubs.c])

    A shallow embedding of [stub_stdext_unix_read], the OCaml primitive that
    reads from a file descriptor through a freshly allocated, 512-byte
    aligned staging buffer and copies the bytes read into an OCaml byte
    buffer.

    The C function is a straight line of calls into libc and the OCaml
    runtime.  Those calls are modelled by a small executable environment:
    a bump allocator for [posix_memalign]/[free], a table of open
    descriptors for [read], a sparse byte memory for the C heap, and a
    table of OCaml byte buffers.  The stub itself is written in a state and
    exception monad over that environment and records every call it makes
    in a log, so that properties of the call sequence (how many reads, with
    which arguments, what is still allocated) can be stated and proved.

    Target platform: LP64 Linux ([int] is 32 bits, [long], [size_t],
    [ssize_t] and the OCaml [value] are 64 bits). *)

From Stdlib Require Import ZArith Lia.
From Stdlib Require Import Strings.Byte.
From stdpp Require Import gmap strings list fin_maps.

Local Open Scope Z_scope.

(** ** Machine integers *)

Module CInt.

(** Conversion to an unsigned type of [bits] bits. *)
Definition wrap_unsigned (bits z : Z) : Z := z mod 2 ^ bits.

(** Conversion to a signed (two's complement) type of [bits] bits. *)
Definition wrap_signed (bits z : Z) : Z :=
  (z + 2 ^ (bits - 1)) mod 2 ^ bits - 2 ^ (bits - 1).

Definition int_bits : Z := 32.
Definition long_bits : Z := 64.

Definition to_int : Z -> Z := wrap_signed int_bits.
Definition to_long : Z -> Z := wrap_signed long_bits.
Definition to_size_t : Z -> Z := wrap_unsigned long_bits.

Definition INT_MIN : Z := - 2 ^ 31.
Definition INT_MAX : Z := 2 ^ 31 - 1.

Definition is_int (z : Z) : Prop := INT_MIN <= z <= INT_MAX.

End CInt.
Export CInt.

(** ** OCaml values

  From the OCaml runtime header [caml/mlvalues.h]: an OCaml integer [x] is
  the machine word [2x+1]; [Long_val] is an arithmetic shift right. *)

Module Caml.

Definition value : Type := Z.

Definition Val_long (x : Z) : value := to_long (Z.shiftl x 1 + 1).
Definition Long_val (v : value) : Z := Z.shiftr v 1.
Definition Val_int (x : Z) : value := Val_long x.
Definition Int_val (v : value) : Z := to_int (Long_val v).

(** Range of the OCaml type [int] on a 64-bit platform. *)
Definition Max_long : Z := 2 ^ 62 - 1.
Definition Min_long : Z := - 2 ^ 62.

Definition is_ocaml_int (z : Z) : Prop := Min_long <= z <= Max_long.

(** The [Unix.Unix_error] exception raised by [uerror]/[unix_error]:
    an error code, the name of the failing function, and its argument. *)
Inductive exn : Type :=
| Unix_error (code : Z) (cmdname : string) (arg : string).

(** [Nothing] of [caml/unixsupport.h]: no argument, reported as the
    empty string. *)
Definition Nothing : option string := None.

End Caml.
Export Caml.

(** ** The environment: kernel, C heap, OCaml heap *)

(** Error numbers (Linux). *)
Definition ENOENT : Z := 2.
Definition EINTR : Z := 4.
Definition EBADF : Z := 9.
Definition ENOMEM : Z := 12.
Definition EFAULT : Z := 14.
Definition EINVAL : Z := 22.

Definition NULL : Z := 0.

(** What a descriptor will deliver next.  [Data bs] is a run of bytes that
    is available to a single [read] (a long run models a regular file, a
    sequence of short runs a pipe or socket delivering partial reads);
    [Fail e] is a [read] that fails once with error [e] (for instance
    [EINTR]).  The empty list is end-of-stream. *)
Inductive chunk : Type :=
| Data (bs : list byte)
| Fail (e : Z).

Definition file : Type := list chunk.

(** All the bytes a descriptor still holds, in order. *)
Fixpoint file_bytes (f : file) : list byte :=
  match f with
  | [] => []
  | Data bs :: f' => bs ++ file_bytes f'
  | Fail _ :: f' => file_bytes f'
  end.

Record world : Type := World {
  w_errno : Z;                      (* the C variable errno *)
  w_files : gmap Z file;            (* open readable descriptors *)
  w_brk : Z;                        (* allocator: first unused address *)
  w_limit : Z;                      (* allocator: end of available memory *)
  w_blocks : gmap Z Z;              (* live malloc blocks: base -> size *)
  w_mem : gmap Z byte;              (* C memory; absent = uninitialised *)
  w_caml : gmap Z (list byte)       (* OCaml byte buffers, by pointer *)
}.

Definition set_errno (e : Z) (w : world) : world :=
  World e (w_files w) (w_brk w) (w_limit w) (w_blocks w) (w_mem w) (w_caml w).
Definition set_files (fs : gmap Z file) (w : world) : world :=
  World (w_errno w) fs (w_brk w) (w_limit w) (w_blocks w) (w_mem w) (w_caml w).
Definition set_brk (b : Z) (w : world) : world :=
  World (w_errno w) (w_files w) b (w_limit w) (w_blocks w) (w_mem w) (w_caml w).
Definition set_blocks (bl : gmap Z Z) (w : world) : world :=
  World (w_errno w) (w_files w) (w_brk w) (w_limit w) bl (w_mem w) (w_caml w).
Definition set_mem (m : gmap Z byte) (w : world) : world :=
  World (w_errno w) (w_files w) (w_brk w) (w_limit w) (w_blocks w) m (w_caml w).
Definition set_caml (c : gmap Z (list byte)) (w : world) : world :=
  World (w_errno w) (w_files w) (w_brk w) (w_limit w) (w_blocks w) (w_mem w) c.

(** The calls the stub makes, as they are logged. *)
Inductive event : Type :=
| EvMemalign (alignment size : Z) (ret memptr : Z)
| EvEnterBlocking
| EvLeaveBlocking
| EvRead (fd buf count : Z) (ret : Z)
| EvMemmove (dst ofs : Z) (src n : Z)
| EvFree (p : Z).

(** ** The monad: state, exceptions, faults and a log *)

Inductive result (A : Type) : Type :=
| Val (a : A)          (* normal return *)
| Exn (e : exn)        (* an OCaml exception was raised *)
| Fault.               (* undefined behaviour in C: bad pointer or range *)
Arguments Val {A} a.
Arguments Exn {A} e.
Arguments Fault {A}.

Definition M (A : Type) : Type := world -> result A * world * list event.

Definition ret {A} (a : A) : M A := fun w => (Val a, w, []).

Definition bind {A B} (m : M A) (k : A -> M B) : M B :=
  fun w =>
    match m w with
    | (Val a, w1, t1) =>
        match k a w1 with
        | (r, w2, t2) => (r, w2, t1 ++ t2)
        end
    | (Exn e, w1, t1) => (Exn e, w1, t1)
    | (Fault, w1, t1) => (Fault, w1, t1)
    end.

Definition raise {A} (e : exn) : M A := fun w => (Exn e, w, []).
Definition fault {A} : M A := fun w => (Fault, w, []).
Definition log (ev : event) : M unit := fun w => (Val tt, w, [ev]).
Definition get : M world := fun w => (Val w, w, []).
Definition modify (f : world -> world) : M unit := fun w => (Val tt, f w, []).

#[global] Instance M_ret : MRet M := @ret.
#[global] Instance M_bind : MBind M := fun A B k m => bind m k.

(** ** libc and runtime primitives *)

Definition zlen {A} (l : list A) : Z := Z.of_nat (length l).

(** *** C memory *)

Fixpoint mem_store (m : gmap Z byte) (a : Z) (bs : list byte) : gmap Z byte :=
  match bs with
  | [] => m
  | b :: bs' => mem_store (<[a := b]> m) (a + 1) bs'
  end.

Fixpoint mem_load (m : gmap Z byte) (a : Z) (n : nat) : option (list byte) :=
  match n with
  | O => Some []
  | S n' =>
      match m !! a, mem_load m (a + 1) n' with
      | Some b, Some bs => Some (b :: bs)
      | _, _ => None
      end
  end.

(** The range of [n] bytes at [p] lies in a live block.  The stub only
    ever uses the base pointer of a block, so [p] is looked up as a base. *)
Definition in_block (w : world) (p n : Z) : bool :=
  match w_blocks w !! p with
  | Some size => (0 <=? n) && (n <=? size)
  | None => false
  end.

(** *** posix_memalign and free

    A bump allocator: the block is placed at the first multiple of
    [alignment] at or above the break, and the call fails with [ENOMEM]
    when the block does not fit below the limit.  The error is the return
    value, and [*memptr] is left as it was on failure.  As in glibc, the
    allocator that fails for lack of memory also leaves [errno = ENOMEM]
    (the rejection of a bad alignment does not touch [errno]), and a
    request for zero bytes gets a pointer of its own. *)

Definition align_up (a alignment : Z) : Z :=
  (a + alignment - 1) / alignment * alignment.

(** [alignment] must be a power of two and a multiple of the pointer
    size (8 bytes). *)
Definition valid_alignment (alignment : Z) : bool :=
  (0 <? alignment) && (alignment mod 8 =? 0)
  && (Z.land alignment (alignment - 1) =? 0).

Definition alloc_base (w : world) (alignment : Z) : Z :=
  align_up (Z.max (w_brk w) 1) alignment.

Definition posix_memalign (memptr : Z) (alignment size : Z) : M (Z * Z) :=
  w ← get;
  if negb (valid_alignment alignment) then
    log (EvMemalign alignment size EINVAL memptr);;
    ret (EINVAL, memptr)
  else
    let a := alloc_base w alignment in
    if w_limit w <? a + size then
      modify (set_errno ENOMEM);;
      log (EvMemalign alignment size ENOMEM memptr);;
      ret (ENOMEM, memptr)
    else
      modify (fun w => set_brk (a + Z.max size 1)
                         (set_blocks (<[a := size]> (w_blocks w)) w));;
      log (EvMemalign alignment size 0 a);;
      ret (0, a).

Definition free (p : Z) : M unit :=
  w ← get;
  log (EvFree p);;
  if p =? NULL then ret tt
  else
    match w_blocks w !! p with
    | Some _ => modify (fun w => set_blocks (delete p (w_blocks w)) w)
    | None => fault
    end.

(** *** read

    Linux: [EBADF] for a descriptor that is not open; [EFAULT] when the
    range [buf, buf+count) is not a user address range ([access_ok]); the
    count is capped at [MAX_RW_COUNT]; a zero count transfers nothing.
    On failure the return value is [-1] and [errno] holds the error. *)

Definition MAX_RW_COUNT : Z := 0x7ffff000.
Definition TASK_SIZE_MAX : Z := 0x7ffffffff000.

Definition access_ok (buf count : Z) : bool :=
  (0 <=? buf) && (buf + count <=? TASK_SIZE_MAX).

(** What the descriptor hands to one [read] of [count] bytes. *)
Inductive read_outcome : Type :=
| ReadBytes (bs : list byte) (f' : file)
| ReadError (e : Z) (f' : file).

Definition file_read (f : file) (count : Z) : read_outcome :=
  if count =? 0 then ReadBytes [] f
  else
    match f with
    | [] => ReadBytes [] []
    | Fail e :: f' => ReadError e f'
    | Data bs :: f' =>
        let n := Z.to_nat (Z.min count MAX_RW_COUNT) in
        ReadBytes (take n bs)
                  (if (n <? length bs)%nat then Data (drop n bs) :: f' else f')
    end.

(** The system call proper: its return value and the state it leaves.
    The last branch, a transfer that would not fit the block at [buf], is
    there to make the function total; the stub never reaches it
    ([read_fits_staging] below). *)
Definition sys_read (w : world) (fd buf count : Z) : Z * world :=
  match w_files w !! fd with
  | None => (-1, set_errno EBADF w)
  | Some f =>
      if negb (access_ok buf count) then (-1, set_errno EFAULT w)
      else
        match file_read f count with
        | ReadError e f' =>
            (-1, set_errno e (set_files (<[fd := f']> (w_files w)) w))
        | ReadBytes bs f' =>
            if in_block w buf (zlen bs) then
              (zlen bs,
               set_mem (mem_store (w_mem w) buf bs)
                 (set_files (<[fd := f']> (w_files w)) w))
            else (-1, set_errno EFAULT w)
        end
  end.

Definition read (fd buf count : Z) : M Z :=
  fun w =>
    let '(n, w') := sys_read w fd buf count in
    (Val n, w', [EvRead fd buf count n]).

(** *** memmove into an OCaml byte buffer: [memmove(&Byte(buf, ofs), src, n)] *)

Definition memmove_Byte (buf ofs src n : Z) : M unit :=
  w ← get;
  log (EvMemmove buf ofs src n);;
  match w_caml w !! buf with
  | None => fault
  | Some d =>
      if (0 <=? ofs) && (ofs + n <=? zlen d) && in_block w src n then
        match mem_load (w_mem w) src (Z.to_nat n) with
        | Some bs =>
            modify (set_caml
              (<[buf := take (Z.to_nat ofs) d ++ bs
                          ++ drop (Z.to_nat (ofs + n)) d]> (w_caml w)))
        | None => fault
        end
      else fault
  end.

(** *** OCaml runtime

    Entering and leaving a blocking section releases and takes back the
    runtime lock; it changes nothing here ([errno] included) and is only
    logged. *)

Definition enter_blocking_section : M unit := log EvEnterBlocking.
Definition leave_blocking_section : M unit := log EvLeaveBlocking.

(** [uerror] takes no error code: it raises [Unix_error] with the current
    value of [errno]. *)
Definition uerror {A} (cmdname : string) (arg : option string) : M A :=
  w ← get;
  raise (Unix_error (w_errno w) cmdname (default EmptyString arg)).

(** ** The stub *)

Definition BLOCK_SIZE : Z := 512.

Definition stub_stdext_unix_read (fd buf ofs len : value) : M value :=
  let iobuf := NULL in
  (* Begin_root (buf) *)
  let numbytes := Long_val len in
  '(r, iobuf) ← posix_memalign iobuf BLOCK_SIZE (to_size_t numbytes);
  (if decide (r <> 0) then uerror "read/posix_memalign" Nothing else ret tt);;
  enter_blocking_section;;
  n ← read (Int_val fd) iobuf (to_size_t (to_int numbytes));
  let r := to_int n in
  leave_blocking_section;;
  (if decide (r = -1) then uerror "read" Nothing else ret tt);;
  memmove_Byte buf (Long_val ofs) iobuf (to_size_t r);;
  free iobuf;;
  (* End_roots () *)
  ret (Val_int r).

(** The primitive as OCaml calls it: a descriptor, a buffer, and two OCaml
    integers. *)
Definition unix_read (fd : Z) (buf : value) (ofs len : Z) : M value :=
  stub_stdext_unix_read (Val_int fd) buf (Val_long ofs) (Val_long len).

(** ** Notions used to state the properties *)

(** Size of the staging buffer requested for an OCaml length [len], the
    count passed to [read], and the address [posix_memalign] chooses. *)
Definition stage_size (len : value) : Z := to_size_t (Long_val len).
Definition read_count (len : value) : Z := to_size_t (to_int (Long_val len)).
Definition staging_base (w : world) : Z := alloc_base w BLOCK_SIZE.

(** The world once the staging buffer has been allocated. *)
Definition staged (w : world) (size : Z) : world :=
  set_brk (staging_base w + Z.max size 1)
    (set_blocks (<[staging_base w := size]> (w_blocks w)) w).

(** The staging buffer of [len] bytes fits in the memory that is left. *)
Definition staging_fits (w : world) (len : Z) : Prop :=
  staging_base w + stage_size (Val_long len) <= w_limit w.

(** The log entries of the allocation and of the [read] of a call. *)
Definition ev_alloc (w : world) (len : value) : event :=
  EvMemalign BLOCK_SIZE (stage_size len) 0 (staging_base w).

Definition ev_read (w : world) (fd len : value) (n : Z) : event :=
  EvRead (Int_val fd) (staging_base w) (read_count len) n.

(** The four ways a call can go.
    [stub_path fd buf ofs len w r w' t]: from the world [w] the call ends
    with result [r] in the world [w'] after making the calls [t]. *)
Inductive stub_path (fd buf ofs len : value) (w : world) :
  result value -> world -> list event -> Prop :=
| path_alloc_failed :
    w_limit w < staging_base w + stage_size len ->
    stub_path fd buf ofs len w
      (Exn (Unix_error ENOMEM "read/posix_memalign" EmptyString))
      (set_errno ENOMEM w)
      [EvMemalign BLOCK_SIZE (stage_size len) ENOMEM NULL]
| path_read_failed w2 :
    staging_base w + stage_size len <= w_limit w ->
    sys_read (staged w (stage_size len)) (Int_val fd) (staging_base w)
      (read_count len) = (-1, w2) ->
    stub_path fd buf ofs len w
      (Exn (Unix_error (w_errno w2) "read" EmptyString)) w2
      [ev_alloc w len; EvEnterBlocking; ev_read w fd len (-1);
       EvLeaveBlocking]
| path_copied f bs f' d :
    staging_base w + stage_size len <= w_limit w ->
    w_files w !! Int_val fd = Some f ->
    access_ok (staging_base w) (read_count len) = true ->
    file_read f (read_count len) = ReadBytes bs f' ->
    w_caml w !! buf = Some d ->
    0 <= Long_val ofs -> Long_val ofs + zlen bs <= zlen d ->
    stub_path fd buf ofs len w
      (Val (Val_int (zlen bs)))
      (World (w_errno w) (<[Int_val fd := f']> (w_files w))
         (staging_base w + Z.max (stage_size len) 1) (w_limit w)
         (delete (staging_base w) (w_blocks w))
         (mem_store (w_mem w) (staging_base w) bs)
         (<[buf := take (Z.to_nat (Long_val ofs)) d ++ bs
                     ++ drop (Z.to_nat (Long_val ofs + zlen bs)) d]>
            (w_caml w)))
      [ev_alloc w len; EvEnterBlocking; ev_read w fd len (zlen bs);
       EvLeaveBlocking;
       EvMemmove buf (Long_val ofs) (staging_base w) (zlen bs);
       EvFree (staging_base w)]
| path_fault n w2 :
    staging_base w + stage_size len <= w_limit w ->
    sys_read (staged w (stage_size len)) (Int_val fd) (staging_base w)
      (read_count len) = (n, w2) ->
    n <> -1 ->
    (forall d, w_caml w !! buf = Some d ->
               ~ (0 <= Long_val ofs /\ Long_val ofs + n <= zlen d)) ->
    stub_path fd buf ofs len w Fault w2
      [ev_alloc w len; EvEnterBlocking; ev_read w fd len n;
       EvLeaveBlocking;
       EvMemmove buf (Long_val ofs) (staging_base w) n].

(** Number of [read] system calls in a log. *)
Definition is_read (ev : event) : bool :=
  match ev with EvRead _ _ _ _ => true | _ => false end.

Definition count_reads (t : list event) : nat :=
  length (List.filter is_read t).

(** [splice d ofs bs]: the buffer [d] with [bs] written at [ofs]. *)
Definition splice (d : list byte) (ofs : Z) (bs : list byte) : list byte :=
  take (Z.to_nat ofs) d ++ bs ++ drop (Z.to_nat (ofs + zlen bs)) d.

(** The [n] bytes of [d] from [ofs] on. *)
Definition sub_bytes (d : list byte) (ofs n : Z) : list byte :=
  take (Z.to_nat n) (drop (Z.to_nat ofs) d).

(** The world [w] with the buffer [buf] holding [d]. *)
Definition with_dest (w : world) (buf : value) (d : list byte) : world :=
  set_caml (<[buf := d]> (w_caml w)) w.

(** ** Concrete worlds used in the examples *)

Definition empty_world : world :=
  World 0 ∅ 4096 (2 ^ 40) ∅ ∅ ∅.

Definition sentinel : byte := "#"%byte.

Definition ABCDEF : list byte := ["A"; "B"; "C"; "D"; "E"; "F"]%byte.

(** A descriptor 3 over the six bytes A..F and an 8-byte buffer at 1000. *)
Definition world_6 : world :=
  set_caml {[ 1000 := replicate 8 sentinel ]}
    (set_files {[ 3 := [Data ABCDEF] ]} empty_world).

Definition digits : list byte :=
  ["0"; "1"; "2"; "3"; "4"; "5"; "6"; "7"; "8"; "9"]%byte.

(** A descriptor 3 over ten bytes and a 25-byte buffer at 1000. *)
Definition world_10 : world :=
  set_caml {[ 1000 := replicate 25 sentinel ]}
    (set_files {[ 3 := [Data digits] ]} empty_world).

(** A descriptor 3 at end-of-stream. *)
Definition world_eof : world :=
  set_caml {[ 1000 := replicate 8 sentinel ]}
    (set_files {[ 3 := [] ]} empty_world).

(** A descriptor 3 whose next [read] is interrupted. *)
Definition world_intr : world :=
  set_caml {[ 1000 := replicate 8 sentinel ]}
    (set_files {[ 3 := [Fail EINTR; Data ABCDEF] ]} empty_world).

(** A world with little memory left, in which an earlier call has left
    [errno = ENOENT]. *)
Definition low_memory_world : world :=
  World ENOENT {[ 3 := [Data ABCDEF] ]} 4096 8192 ∅ ∅
    {[ 1000 := replicate 8 sentinel ]}.

Definition run_10 : result value * world * list event :=
  unix_read 3 1000 5 20 world_10.

Definition zeros : list byte := replicate 8 "0"%byte.

(** ** Notions for the properties of the call as a whole *)

(** The allocator's invariant: every live block starts below the break. *)
Definition heap_wf (w : world) : Prop :=
  forall p size, w_blocks w !! p = Some size -> p < w_brk w.

(** The pointers passed to [free] in a log, in order. *)
Fixpoint frees (t : list event) : list Z :=
  match t with
  | [] => []
  | EvFree p :: t' => p :: frees t'
  | _ :: t' => frees t'
  end.

(** A log respects the blocking section: [read] is called only inside a
    section, every other call only outside, sections do not nest, and none
    is left open at the end.  [inside] tells whether a section is open where
    the log starts. *)
Fixpoint bracket_ok (inside : bool) (t : list event) : bool :=
  match t with
  | [] => negb inside
  | EvEnterBlocking :: t' => negb inside && bracket_ok true t'
  | EvLeaveBlocking :: t' => inside && bracket_ok false t'
  | EvRead _ _ _ _ :: t' => inside && bracket_ok inside t'
  | _ :: t' => negb inside && bracket_ok inside t'
  end.

(** A descriptor 3 delivering its data in two runs, as a pipe would. *)
Definition world_pipe : world :=
  set_caml {[ 1000 := replicate 8 sentinel ]}
    (set_files {[ 3 := [Data ["A"; "B"]%byte; Data ["C"; "D"; "E"]%byte];
                  4 := [Data digits] ]} empty_world).

(** ** Tactics *)

Ltac unfold_M :=
  unfold mbind, M_bind, bind, mret, M_ret, ret, get, modify, log, raise,
    fault, uerror, enter_blocking_section, leave_blocking_section; simpl.

Ltac int_range :=
  unfold is_int, is_ocaml_int, INT_MIN, INT_MAX, Min_long, Max_long; lia.

(** * Properties *)

(** ** Integer conversions *)

Lemma to_size_t_small z : 0 <= z < 2 ^ 64 -> to_size_t z = z.
Proof.
  intros H. unfold to_size_t, wrap_unsigned, long_bits.
  now apply Z.mod_small.
Qed.

Lemma to_int_small z : is_int z -> to_int z = z.
Proof.
  unfold is_int, INT_MIN, INT_MAX, to_int, wrap_signed, int_bits.
  change (32 - 1) with 31. change (2 ^ 32) with 4294967296.
  change (2 ^ 31) with 2147483648. intros H.
  rewrite Z.mod_small by lia. lia.
Qed.

Lemma to_long_small z : - 2 ^ 63 <= z < 2 ^ 63 -> to_long z = z.
Proof.
  unfold to_long, wrap_signed, long_bits.
  change (64 - 1) with 63. change (2 ^ 64) with 18446744073709551616.
  change (2 ^ 63) with 9223372036854775808. intros H.
  rewrite Z.mod_small by lia. lia.
Qed.

Lemma Long_val_Val_long x : is_ocaml_int x -> Long_val (Val_long x) = x.
Proof.
  unfold is_ocaml_int, Min_long, Max_long, Long_val, Val_long.
  change (2 ^ 62) with 4611686018427387904. intros H.
  rewrite Z.shiftl_mul_pow2 by lia. rewrite to_long_small.
  - rewrite Z.shiftr_div_pow2 by lia. change (2 ^ 1) with 2.
    symmetry. apply (Z.div_unique _ 2 x 1); lia.
  - change (2 ^ 63) with 9223372036854775808. lia.
Qed.

Lemma Int_val_Val_int x : is_int x -> Int_val (Val_int x) = x.
Proof.
  intros H. unfold Int_val, Val_int. rewrite Long_val_Val_long.
  - now apply to_int_small.
  - revert H. unfold is_int, INT_MIN, INT_MAX, is_ocaml_int, Min_long, Max_long.
    lia.
Qed.

(** ** C memory: what is stored is what is loaded *)

Lemma mem_store_lookup_below bs : forall m a p,
  p < a -> mem_store m a bs !! p = m !! p.
Proof.
  induction bs as [|b bs IH]; intros m a p Hp; simpl; [done|].
  rewrite IH by lia. apply lookup_insert_ne. lia.
Qed.

Lemma mem_load_store bs : forall m a,
  mem_load (mem_store m a bs) a (length bs) = Some bs.
Proof.
  induction bs as [|b bs IH]; intros m a; simpl; [done|].
  rewrite mem_store_lookup_below by lia.
  rewrite lookup_insert_eq. now rewrite IH.
Qed.

(** ** One read from a descriptor *)

Lemma zlen_nonneg {A} (l : list A) : 0 <= zlen l.
Proof. unfold zlen. lia. Qed.

Lemma file_read_bound f count bs f' :
  file_read f count = ReadBytes bs f' ->
  zlen bs <= MAX_RW_COUNT /\ (0 <= count -> zlen bs <= count).
Proof.
  unfold file_read, zlen, MAX_RW_COUNT.
  destruct (Z.eqb_spec count 0) as [->|Hc].
  - intros [= <- <-]. simpl. lia.
  - destruct f as [|[cs|e] f0]; intros [= <- <-]; simpl; [lia|].
    rewrite length_take. lia.
Qed.

(** The bytes handed out are a prefix of the stream, and the stream is left
    holding exactly the rest. *)
Lemma file_read_bytes f count bs f' :
  file_read f count = ReadBytes bs f' ->
  file_bytes f = bs ++ file_bytes f'.
Proof.
  unfold file_read.
  destruct (count =? 0); [intros [= <- <-]; done|].
  destruct f as [|[cs|e] f0]; intros [= <- <-]; simpl; [done|].
  set (n := Z.to_nat _).
  destruct (Nat.ltb_spec n (length cs)) as [Hlt|Hge]; simpl.
  - now rewrite app_assoc, take_drop.
  - now rewrite take_ge by lia.
Qed.

Lemma file_read_zero f : file_read f 0 = ReadBytes [] f.
Proof. reflexivity. Qed.

Lemma file_read_eof count : file_read [] count = ReadBytes [] [].
Proof. unfold file_read. now destruct (count =? 0). Qed.

(** [read] either fails with [-1], leaving both heaps as they were, or
    transfers the bytes the descriptor handed out. *)
Lemma sys_read_inv w fd buf count n w' :
  sys_read w fd buf count = (n, w') ->
  (n = -1 /\ w_caml w' = w_caml w /\ w_blocks w' = w_blocks w
   /\ w_mem w' = w_mem w /\ w_brk w' = w_brk w /\ w_limit w' = w_limit w)
  \/ (exists f bs f',
        w_files w !! fd = Some f /\ access_ok buf count = true /\
        file_read f count = ReadBytes bs f' /\
        in_block w buf (zlen bs) = true /\ n = zlen bs /\
        w' = set_mem (mem_store (w_mem w) buf bs)
               (set_files (<[fd := f']> (w_files w)) w)).
Proof.
  unfold sys_read. destruct (w_files w !! fd) as [f|] eqn:Hf.
  - destruct (access_ok buf count) eqn:Hok; simpl.
    + destruct (file_read f count) as [bs f'|e f'] eqn:Hr.
      * destruct (in_block w buf (zlen bs)) eqn:Hin.
        -- intros [= <- <-]. right. now exists f, bs, f'.
        -- intros [= <- <-]. now left.
      * intros [= <- <-]. now left.
    + intros [= <- <-]. now left.
  - intros [= <- <-]. now left.
Qed.

(** The return value of [read] fits an [int]: nothing is lost when the
    stub stores it in [int ret]. *)
Lemma sys_read_ret_range w fd buf count n w' :
  sys_read w fd buf count = (n, w') -> -1 <= n <= MAX_RW_COUNT.
Proof.
  intros H. destruct (sys_read_inv _ _ _ _ _ _ H)
    as [(-> & _)|(f & bs & f' & _ & _ & Hr & _ & -> & _)].
  - unfold MAX_RW_COUNT. lia.
  - pose proof (zlen_nonneg bs). apply file_read_bound in Hr. lia.
Qed.

Lemma sys_read_ret_int w fd buf count n w' :
  sys_read w fd buf count = (n, w') -> to_int n = n.
Proof.
  intros H. apply sys_read_ret_range in H. apply to_int_small.
  revert H. unfold is_int, INT_MIN, INT_MAX, MAX_RW_COUNT. lia.
Qed.

Lemma sys_read_closed w fd buf count :
  w_files w !! fd = None ->
  sys_read w fd buf count = (-1, set_errno EBADF w).
Proof. intros H. unfold sys_read. now rewrite H. Qed.

(** ** Stepping through a sequence of calls *)

Lemma bind_val {A B} (m : M A) (k : A -> M B) w a w1 t1 :
  m w = (Val a, w1, t1) ->
  (m ≫= k) w = (let '(r, w2, t2) := k a w1 in (r, w2, t1 ++ t2)).
Proof.
  intros H. unfold mbind, M_bind, bind. rewrite H.
  now destruct (k a w1) as [[r w2] t2].
Qed.

Lemma bind_fault {A B} (m : M A) (k : A -> M B) w w1 t1 :
  m w = (Fault, w1, t1) -> (m ≫= k) w = (Fault, w1, t1).
Proof. intros H. unfold mbind, M_bind, bind. now rewrite H. Qed.

Lemma bind_ret {A B} (a : A) (k : A -> M B) w :
  (ret a ≫= k) w = (let '(r, w2, t2) := k a w in (r, w2, [] ++ t2)).
Proof. now apply bind_val. Qed.

Lemma bind_log {B} (ev : event) (k : unit -> M B) w :
  (log ev ≫= k) w = (let '(r, w2, t2) := k tt w in (r, w2, [ev] ++ t2)).
Proof. now apply bind_val. Qed.

Lemma read_run w fd buf count n w' :
  sys_read w fd buf count = (n, w') ->
  read fd buf count w = (Val n, w', [EvRead fd buf count n]).
Proof. intros H. unfold read. now rewrite H. Qed.

(** ** The allocator *)

Lemma align_up_multiple a alignment :
  alignment <> 0 -> align_up a alignment mod alignment = 0.
Proof. intros H. unfold align_up. now apply Z.mod_mul. Qed.

Lemma align_up_ge a alignment : 0 < alignment -> a <= align_up a alignment.
Proof.
  intros H. unfold align_up.
  pose proof (Z.mul_div_le (a + alignment - 1) alignment H).
  pose proof (Z.mod_pos_bound (a + alignment - 1) alignment H).
  pose proof (Z.div_mod (a + alignment - 1) alignment). lia.
Qed.

Lemma staging_base_aligned w : staging_base w mod BLOCK_SIZE = 0.
Proof. apply align_up_multiple. unfold BLOCK_SIZE. lia. Qed.

Lemma staging_base_pos w : 0 < staging_base w.
Proof.
  pose proof (align_up_ge (Z.max (w_brk w) 1) BLOCK_SIZE).
  unfold staging_base, alloc_base, BLOCK_SIZE in *. lia.
Qed.

Lemma posix_memalign_enomem w memptr size :
  w_limit w < staging_base w + size ->
  posix_memalign memptr BLOCK_SIZE size w =
  (Val (ENOMEM, memptr), set_errno ENOMEM w,
   [EvMemalign BLOCK_SIZE size ENOMEM memptr]).
Proof.
  intros H. unfold posix_memalign. unfold_M.
  change (valid_alignment BLOCK_SIZE) with true. simpl.
  fold (staging_base w). destruct (Z.ltb_spec (w_limit w) (staging_base w + size)); [done|lia].
Qed.

Lemma posix_memalign_ok w memptr size :
  staging_base w + size <= w_limit w ->
  posix_memalign memptr BLOCK_SIZE size w =
  (Val (0, staging_base w), staged w size,
   [EvMemalign BLOCK_SIZE size 0 (staging_base w)]).
Proof.
  intros H. unfold posix_memalign. unfold_M.
  change (valid_alignment BLOCK_SIZE) with true. simpl.
  fold (staging_base w). destruct (Z.ltb_spec (w_limit w) (staging_base w + size)); [lia|done].
Qed.

Lemma free_live w p size :
  p <> NULL -> w_blocks w !! p = Some size ->
  free p w = (Val tt, set_blocks (delete p (w_blocks w)) w, [EvFree p]).
Proof.
  intros Hp Hl. unfold free. unfold_M.
  destruct (Z.eqb_spec p NULL); [done|]. now rewrite Hl.
Qed.

Lemma memmove_Byte_ok w buf ofs src n d size bs :
  w_caml w !! buf = Some d ->
  0 <= ofs -> ofs + n <= zlen d ->
  w_blocks w !! src = Some size -> 0 <= n <= size ->
  mem_load (w_mem w) src (Z.to_nat n) = Some bs ->
  memmove_Byte buf ofs src n w =
  (Val tt,
   set_caml (<[buf := take (Z.to_nat ofs) d ++ bs
                        ++ drop (Z.to_nat (ofs + n)) d]> (w_caml w)) w,
   [EvMemmove buf ofs src n]).
Proof.
  intros Hd Ho Hn Hs Hsz Hl. unfold memmove_Byte, in_block. unfold_M.
  rewrite Hd, Hs, Hl.
  destruct (Z.leb_spec 0 ofs); [|lia].
  destruct (Z.leb_spec (ofs + n) (zlen d)); [|lia].
  destruct (Z.leb_spec 0 n); [|lia].
  destruct (Z.leb_spec n size); [|lia]. done.
Qed.

Lemma memmove_Byte_fault w buf ofs src n :
  (forall d, w_caml w !! buf = Some d -> ~ (0 <= ofs /\ ofs + n <= zlen d)) ->
  memmove_Byte buf ofs src n w = (Fault, w, [EvMemmove buf ofs src n]).
Proof.
  intros H. unfold memmove_Byte. unfold_M.
  destruct (w_caml w !! buf) as [d|] eqn:Hd; [|done].
  specialize (H d eq_refl).
  destruct (Z.leb_spec 0 ofs); [|done].
  destruct (Z.leb_spec (ofs + n) (zlen d)); [lia|done].
Qed.

(** [read] never overruns the staging buffer.  The count it is given is
    the length narrowed to [int]: when that is negative the count is not a
    user address range and the kernel transfers nothing; otherwise it is at
    most the size that was allocated. *)
Lemma read_count_le_stage_size len :
  read_count len <= TASK_SIZE_MAX -> read_count len <= stage_size len.
Proof.
  unfold read_count, stage_size. generalize (Long_val len) as x. intros x.
  unfold to_size_t, wrap_unsigned, long_bits.
  unfold to_int, wrap_signed, int_bits, TASK_SIZE_MAX.
  change (32 - 1) with 31. change (2 ^ 32) with 4294967296.
  change (2 ^ 31) with 2147483648.
  change (2 ^ 64) with 18446744073709551616.
  intros H. Z.div_mod_to_equations. lia.
Qed.

Lemma read_fits_staging len a f bs f' :
  access_ok a (read_count len) = true ->
  file_read f (read_count len) = ReadBytes bs f' ->
  zlen bs <= stage_size len.
Proof.
  intros Hok Hr. unfold access_ok in Hok.
  apply andb_true_iff in Hok as [Ha%Z.leb_le Hc%Z.leb_le].
  assert (0 <= read_count len) as Hnn.
  { unfold read_count, to_size_t, wrap_unsigned, long_bits.
    apply Z.mod_pos_bound. lia. }
  apply file_read_bound in Hr as [_ Hle]. specialize (Hle Hnn).
  pose proof (read_count_le_stage_size len). lia.
Qed.

Lemma sys_read_bytes w fd buf count f bs f' size :
  w_files w !! fd = Some f ->
  access_ok buf count = true ->
  file_read f count = ReadBytes bs f' ->
  w_blocks w !! buf = Some size -> zlen bs <= size ->
  sys_read w fd buf count =
  (zlen bs,
   set_mem (mem_store (w_mem w) buf bs)
     (set_files (<[fd := f']> (w_files w)) w)).
Proof.
  intros Hf Hok Hr Hb Hsz. unfold sys_read, in_block.
  rewrite Hf, Hok, Hr, Hb. simpl.
  pose proof (zlen_nonneg bs).
  destruct (Z.leb_spec 0 (zlen bs)); [|lia].
  destruct (Z.leb_spec (zlen bs) size); [|lia]. done.
Qed.

Lemma sys_read_error w fd buf count f e f' :
  w_files w !! fd = Some f ->
  access_ok buf count = true ->
  file_read f count = ReadError e f' ->
  sys_read w fd buf count =
  (-1, set_errno e (set_files (<[fd := f']> (w_files w)) w)).
Proof.
  intros Hf Hok Hr. unfold sys_read. now rewrite Hf, Hok, Hr.
Qed.

Lemma zlen_int {A} (l : list A) :
  zlen l <= MAX_RW_COUNT ->
  to_int (zlen l) = zlen l /\ to_size_t (to_int (zlen l)) = zlen l.
Proof.
  intros H. pose proof (zlen_nonneg l).
  assert (to_int (zlen l) = zlen l) as E.
  { apply to_int_small. revert H. unfold is_int, INT_MIN, INT_MAX, MAX_RW_COUNT. lia. }
  split; [done|]. rewrite E. apply to_size_t_small.
  revert H. unfold MAX_RW_COUNT. lia.
Qed.

(** ** The four ways a call can go *)

Section Paths.

Variables (fd buf ofs len : value) (w : world).

Lemma stub_alloc_failed :
  w_limit w < staging_base w + stage_size len ->
  stub_stdext_unix_read fd buf ofs len w =
  (Exn (Unix_error ENOMEM "read/posix_memalign" EmptyString),
   set_errno ENOMEM w,
   [EvMemalign BLOCK_SIZE (stage_size len) ENOMEM NULL]).
Proof.
  intros H. unfold stub_stdext_unix_read.
  unfold mbind at 1, M_bind at 1, bind at 1.
  fold (stage_size len). rewrite (posix_memalign_enomem _ _ _ H).
  unfold_M. done.
Qed.

Lemma stub_read_failed w2 :
  staging_base w + stage_size len <= w_limit w ->
  sys_read (staged w (stage_size len)) (Int_val fd) (staging_base w)
    (read_count len) = (-1, w2) ->
  stub_stdext_unix_read fd buf ofs len w =
  (Exn (Unix_error (w_errno w2) "read" EmptyString), w2,
   [ev_alloc w len; EvEnterBlocking; ev_read w fd len (-1);
    EvLeaveBlocking]).
Proof.
  intros Ha Hr. unfold stub_stdext_unix_read.
  unfold mbind at 1, M_bind at 1, bind at 1.
  fold (stage_size len) (read_count len).
  rewrite (posix_memalign_ok _ _ _ Ha).
  unfold_M. unfold read. rewrite Hr. simpl. done.
Qed.

Lemma stub_copied f bs f' d :
  staging_base w + stage_size len <= w_limit w ->
  w_files w !! Int_val fd = Some f ->
  access_ok (staging_base w) (read_count len) = true ->
  file_read f (read_count len) = ReadBytes bs f' ->
  w_caml w !! buf = Some d ->
  0 <= Long_val ofs -> Long_val ofs + zlen bs <= zlen d ->
  stub_stdext_unix_read fd buf ofs len w =
  (Val (Val_int (zlen bs)),
   World (w_errno w) (<[Int_val fd := f']> (w_files w))
     (staging_base w + Z.max (stage_size len) 1) (w_limit w)
     (delete (staging_base w) (w_blocks w))
     (mem_store (w_mem w) (staging_base w) bs)
     (<[buf := take (Z.to_nat (Long_val ofs)) d ++ bs
                 ++ drop (Z.to_nat (Long_val ofs + zlen bs)) d]>
        (w_caml w)),
   [ev_alloc w len; EvEnterBlocking; ev_read w fd len (zlen bs);
    EvLeaveBlocking;
    EvMemmove buf (Long_val ofs) (staging_base w) (zlen bs);
    EvFree (staging_base w)]).
Proof.
  intros Ha Hf Hok Hr Hd Ho Hn.
  pose proof (read_fits_staging _ _ _ _ _ Hok Hr) as Hsz.
  pose proof (file_read_bound _ _ _ _ Hr) as [Hmax _].
  destruct (zlen_int bs Hmax) as [Ei Es].
  pose proof (zlen_nonneg bs) as Hnn.
  pose proof (staging_base_pos w) as Hpos.
  assert (sys_read (staged w (stage_size len)) (Int_val fd) (staging_base w)
            (read_count len) =
          (zlen bs,
           set_mem (mem_store (w_mem w) (staging_base w) bs)
             (set_files (<[Int_val fd := f']> (w_files w))
                (staged w (stage_size len))))) as Hsys.
  { rewrite (sys_read_bytes (staged w (stage_size len)) _ _ _ f bs f'
               (stage_size len)); try done.
    simpl. apply lookup_insert_eq. }
  unfold stub_stdext_unix_read.
  fold (stage_size len) (read_count len).
  rewrite (bind_val _ _ _ _ _ _ (posix_memalign_ok _ _ _ Ha)). cbv beta iota.
  destruct (decide (0 <> 0)) as [?|_]; [done|].
  rewrite bind_ret. unfold enter_blocking_section, leave_blocking_section.
  rewrite bind_log.
  rewrite (bind_val _ _ _ _ _ _ (read_run _ _ _ _ _ _ Hsys)).
  cbv beta iota zeta. rewrite !Es, !Ei. rewrite bind_log.
  destruct (decide (zlen bs = -1)) as [?|_]; [lia|].
  rewrite bind_ret.
  erewrite (bind_val (memmove_Byte _ _ _ _)); cycle 1.
  { apply memmove_Byte_ok with (d := d) (size := stage_size len) (bs := bs);
      try done.
    - simpl. apply lookup_insert_eq.
    - simpl. unfold zlen. rewrite Nat2Z.id. apply mem_load_store. }
  erewrite (bind_val (free _)); cycle 1.
  { apply free_live with (size := stage_size len).
    - unfold NULL. lia.
    - simpl. apply lookup_insert_eq. }
  simpl. rewrite delete_insert_eq. done.
Qed.

Lemma stub_faulted n w2 :
  staging_base w + stage_size len <= w_limit w ->
  sys_read (staged w (stage_size len)) (Int_val fd) (staging_base w)
    (read_count len) = (n, w2) ->
  n <> -1 ->
  (forall d, w_caml w !! buf = Some d ->
             ~ (0 <= Long_val ofs /\ Long_val ofs + n <= zlen d)) ->
  stub_stdext_unix_read fd buf ofs len w =
  (Fault, w2,
   [ev_alloc w len; EvEnterBlocking; ev_read w fd len n; EvLeaveBlocking;
    EvMemmove buf (Long_val ofs) (staging_base w) n]).
Proof.
  intros Ha Hsys Hn Hbad.
  pose proof (sys_read_ret_range _ _ _ _ _ _ Hsys) as Hrange.
  pose proof (sys_read_ret_int _ _ _ _ _ _ Hsys) as Ei.
  assert (to_size_t n = n) as Es.
  { apply to_size_t_small. revert Hrange. unfold MAX_RW_COUNT. lia. }
  assert (w_caml w2 = w_caml w) as Hcaml.
  { destruct (sys_read_inv _ _ _ _ _ _ Hsys)
      as [(_ & Hc & _)|(f & bs & f' & _ & _ & _ & _ & _ & ->)]; done. }
  unfold stub_stdext_unix_read.
  fold (stage_size len) (read_count len).
  rewrite (bind_val _ _ _ _ _ _ (posix_memalign_ok _ _ _ Ha)). cbv beta iota.
  destruct (decide (0 <> 0)) as [?|_]; [done|].
  rewrite bind_ret. unfold enter_blocking_section, leave_blocking_section.
  rewrite bind_log.
  rewrite (bind_val _ _ _ _ _ _ (read_run _ _ _ _ _ _ Hsys)).
  cbv beta iota zeta. rewrite !Ei, !Es. rewrite bind_log.
  destruct (decide (n = -1)) as [?|_]; [done|].
  rewrite bind_ret.
  erewrite (bind_fault (memmove_Byte _ _ _ _)); [done|].
  apply memmove_Byte_fault. now rewrite Hcaml.
Qed.

(** Every path is a run of the stub... *)
Theorem stub_path_sound r w' t :
  stub_path fd buf ofs len w r w' t ->
  stub_stdext_unix_read fd buf ofs len w = (r, w', t).
Proof.
  destruct 1.
  - now apply stub_alloc_failed.
  - now apply stub_read_failed.
  - now apply stub_copied with (f := f).
  - now apply stub_faulted.
Qed.

(** ... and every run of the stub follows one of the paths. *)
Theorem stub_path_complete r w' t :
  stub_stdext_unix_read fd buf ofs len w = (r, w', t) ->
  stub_path fd buf ofs len w r w' t.
Proof.
  intros Hrun.
  assert (forall r0 w0 t0, stub_path fd buf ofs len w r0 w0 t0 ->
                           stub_path fd buf ofs len w r w' t) as Hvia.
  { intros r0 w0 t0 Hp. pose proof (stub_path_sound _ _ _ Hp) as E.
    rewrite Hrun in E. now injection E as -> -> ->. }
  destruct (Z.lt_ge_cases (w_limit w) (staging_base w + stage_size len))
    as [Hfail|Hok].
  { eapply Hvia. now apply path_alloc_failed. }
  destruct (sys_read (staged w (stage_size len)) (Int_val fd)
              (staging_base w) (read_count len)) as [n w2] eqn:Hsys.
  destruct (decide (n = -1)) as [->|Hn].
  { eapply Hvia. now apply path_read_failed with (w2 := w2). }
  destruct (sys_read_inv _ _ _ _ _ _ Hsys)
    as [(? & _)|(f & bs & f' & Hf & Hacc & Hr & Hin & -> & Hw2)]; [done|].
  simpl in Hf.
  destruct (w_caml w !! buf) as [d|] eqn:Hd.
  - destruct (decide (0 <= Long_val ofs /\
                      Long_val ofs + zlen bs <= zlen d)) as [[Ho Hb]|Hbad].
    + eapply Hvia. now apply path_copied with (f := f) (bs := bs) (f' := f') (d := d).
    + eapply Hvia. apply path_fault with (n := zlen bs) (w2 := w2); try done.
      intros d' Hd'. assert (d' = d) as -> by congruence. done.
  - eapply Hvia. apply path_fault with (n := zlen bs) (w2 := w2); try done.
    intros d' Hd'. congruence.
Qed.

End Paths.

(** ** The call as OCaml makes it *)

Lemma stage_size_Val_long len :
  0 <= len <= Max_long -> stage_size (Val_long len) = len.
Proof.
  intros H. unfold stage_size. rewrite Long_val_Val_long.
  - apply to_size_t_small. revert H. unfold Max_long. lia.
  - revert H. unfold is_ocaml_int, Min_long, Max_long. lia.
Qed.

Lemma read_count_Val_long len :
  0 <= len <= INT_MAX -> read_count (Val_long len) = len.
Proof.
  intros H. unfold read_count. rewrite Long_val_Val_long.
  - rewrite to_int_small; [apply to_size_t_small|];
      revert H; unfold is_int, INT_MIN, INT_MAX; lia.
  - revert H. unfold is_ocaml_int, Min_long, Max_long, INT_MAX. lia.
Qed.

Lemma splice_length d ofs bs :
  0 <= ofs -> ofs + zlen bs <= zlen d -> length (splice d ofs bs) = length d.
Proof.
  unfold splice, zlen. intros Ho Hb.
  rewrite !length_app, length_take, length_drop. lia.
Qed.

Lemma splice_inside d ofs bs (i : nat) :
  0 <= ofs -> ofs + zlen bs <= zlen d -> (i < length bs)%nat ->
  splice d ofs bs !! (Z.to_nat ofs + i)%nat = bs !! i.
Proof.
  unfold splice, zlen. intros Ho Hb Hi.
  rewrite lookup_app_r; rewrite length_take; [|lia].
  replace (Z.to_nat ofs + i - Z.to_nat ofs `min` length d)%nat with i by lia.
  now apply lookup_app_l.
Qed.

Lemma splice_outside d ofs bs (j : nat) :
  0 <= ofs -> ofs + zlen bs <= zlen d ->
  (j < Z.to_nat ofs \/ Z.to_nat ofs + length bs <= j)%nat ->
  splice d ofs bs !! j = d !! j.
Proof.
  unfold splice, zlen. intros Ho Hb [Hj|Hj].
  - rewrite lookup_app_l by (rewrite length_take; lia).
    apply lookup_take_lt. lia.
  - rewrite lookup_app_r; rewrite length_take; [|lia].
    rewrite lookup_app_r by lia. rewrite lookup_drop. f_equal. lia.
Qed.

Lemma splice_nil d ofs : 0 <= ofs -> splice d ofs [] = d.
Proof.
  intros Ho. unfold splice, zlen. simpl. rewrite Z.add_0_r. apply take_drop.
Qed.

Lemma splice_written d ofs bs :
  0 <= ofs -> ofs + zlen bs <= zlen d ->
  take (length bs) (drop (Z.to_nat ofs) (splice d ofs bs)) = bs.
Proof.
  unfold splice, zlen. intros Ho Hb.
  rewrite drop_app_length' by (rewrite length_take; lia).
  apply take_app_length.
Qed.

(** ** Claims *)

(** C4.  After a successful call returning [n], the destination holds, at
    [ofs .. ofs+n), exactly the [n] bytes the descriptor handed out, in
    order: they are a prefix [bs] of the descriptor's stream, which is left
    holding the rest.  The buffer keeps its length and every byte outside
    that range is what it was, the tail beyond [ofs+n] included. *)
Theorem unix_read_copies_exactly fd buf ofs len w v w' t d :
  is_int fd -> is_ocaml_int ofs ->
  w_caml w !! buf = Some d ->
  unix_read fd buf ofs len w = (Val v, w', t) ->
  exists f bs f' d',
    w_files w !! fd = Some f /\ file_bytes f = bs ++ file_bytes f' /\
    w_files w' = <[fd := f']> (w_files w) /\
    v = Val_long (zlen bs) /\
    0 <= ofs /\ ofs + zlen bs <= zlen d /\
    w_caml w' = <[buf := d']> (w_caml w) /\
    d' = splice d ofs bs /\
    length d' = length d /\
    (forall i : nat, (i < length bs)%nat ->
       d' !! (Z.to_nat ofs + i)%nat = bs !! i) /\
    (forall j : nat, (j < Z.to_nat ofs \/ Z.to_nat ofs + length bs <= j)%nat ->
       d' !! j = d !! j).
Proof.
  intros Hfd Hofs Hd Hrun. unfold unix_read in Hrun.
  apply stub_path_complete in Hrun.
  inversion Hrun as [| |f bs f' d0 Ha Hf Hacc Hr Hd0 Ho Hb|]; subst.
  rewrite Int_val_Val_int in * by done.
  rewrite Long_val_Val_long in * by done.
  assert (d0 = d) as -> by congruence.
  exists f, bs, f', (splice d ofs bs). simpl.
  repeat split; try done.
  - now apply file_read_bytes with (count := read_count (Val_long len)).
  - now apply splice_length.
  - intros i Hi. now apply splice_inside.
  - intros j Hj. now apply splice_outside.
Qed.

(** C5.  For every [len >= 0], a successful call returns [n] with
    [0 <= n <= len]; the [memmove] copies exactly [n] bytes, which is the
    count the [read] returned, so the bytes copied exceed neither [len] nor
    what was read. *)
Theorem unix_read_count_bounds fd buf ofs len w v w' t :
  0 <= len <= Max_long ->
  unix_read fd buf ofs len w = (Val v, w', t) ->
  exists n fd' a c o,
    v = Val_long n /\ 0 <= n <= len /\
    t = [EvMemalign BLOCK_SIZE len 0 a; EvEnterBlocking; EvRead fd' a c n;
         EvLeaveBlocking; EvMemmove buf o a n; EvFree a].
Proof.
  intros Hlen Hrun. unfold unix_read in Hrun.
  apply stub_path_complete in Hrun.
  inversion Hrun as [| |f bs f' d0 Ha Hf Hacc Hr Hd0 Ho Hb|]; subst.
  pose proof (read_fits_staging _ _ _ _ _ Hacc Hr) as Hsz.
  rewrite stage_size_Val_long in Hsz by done.
  exists (zlen bs), (Int_val (Val_int fd)), (staging_base w),
    (read_count (Val_long len)), (Long_val (Val_long ofs)).
  pose proof (zlen_nonneg bs).
  repeat split; try done.
  unfold ev_alloc, ev_read. now rewrite stage_size_Val_long.
Qed.

Lemma sys_read_blocks w fd buf count n w' :
  sys_read w fd buf count = (n, w') -> w_blocks w' = w_blocks w.
Proof.
  intros H. destruct (sys_read_inv _ _ _ _ _ _ H)
    as [(_ & _ & Hb & _)|(f & bs & f' & _ & _ & _ & _ & _ & ->)]; done.
Qed.

Lemma staging_access_ok w len :
  0 <= len <= INT_MAX -> staging_fits w len -> w_limit w <= TASK_SIZE_MAX ->
  access_ok (staging_base w) (read_count (Val_long len)) = true.
Proof.
  intros Hlen Hfit Hlim. unfold staging_fits in Hfit.
  assert (0 <= len <= Max_long) as Hlen'
    by (revert Hlen; unfold INT_MAX, Max_long; lia).
  rewrite stage_size_Val_long in Hfit by done.
  rewrite read_count_Val_long by done.
  pose proof (staging_base_pos w). unfold access_ok.
  apply andb_true_iff. split; [apply Z.leb_le|apply Z.leb_le]; lia.
Qed.

(** Under the caller's obligations (a descriptor open for reading, a
    destination with room for [len] bytes at [ofs]) and with memory for the
    staging buffer, a call whose descriptor hands out [bs] returns
    [length bs] and writes [bs] at [ofs]. *)
Lemma unix_read_succeeds fd buf ofs len w f d bs f' :
  is_int fd -> 0 <= ofs -> 0 <= len <= INT_MAX ->
  ofs + len <= zlen d -> zlen d <= Max_long ->
  w_files w !! fd = Some f -> w_caml w !! buf = Some d ->
  staging_fits w len -> w_limit w <= TASK_SIZE_MAX ->
  file_read f len = ReadBytes bs f' ->
  unix_read fd buf ofs len w =
  (Val (Val_long (zlen bs)),
   World (w_errno w) (<[fd := f']> (w_files w))
     (staging_base w + Z.max len 1) (w_limit w)
     (delete (staging_base w) (w_blocks w))
     (mem_store (w_mem w) (staging_base w) bs)
     (<[buf := splice d ofs bs]> (w_caml w)),
   [EvMemalign BLOCK_SIZE len 0 (staging_base w); EvEnterBlocking;
    EvRead fd (staging_base w) len (zlen bs); EvLeaveBlocking;
    EvMemmove buf ofs (staging_base w) (zlen bs);
    EvFree (staging_base w)]).
Proof.
  intros Hfd Ho Hlen Hb Hd Hf Hc Hfit Hlim Hr.
  pose proof (zlen_nonneg d).
  assert (0 <= len <= Max_long) as Hlen'
    by (revert Hlen; unfold INT_MAX, Max_long; lia).
  assert (is_ocaml_int ofs) as Hofs
    by (unfold is_ocaml_int, Min_long, Max_long in *; lia).
  pose proof (staging_access_ok w len Hlen Hfit Hlim) as Hacc.
  pose proof (file_read_bound _ _ _ _ Hr) as [_ Hle]. specialize (Hle (proj1 Hlen)).
  unfold staging_fits in Hfit. unfold unix_read.
  rewrite stage_size_Val_long in Hfit by done.
  rewrite read_count_Val_long in Hacc by done.
  rewrite (stub_copied (Val_int fd) buf (Val_long ofs) (Val_long len) w f bs f' d);
    rewrite ?Int_val_Val_int, ?Long_val_Val_long, ?stage_size_Val_long,
      ?read_count_Val_long by done; try done; try lia.
  unfold ev_alloc, ev_read.
  rewrite ?Int_val_Val_int, ?Long_val_Val_long, ?stage_size_Val_long,
      ?read_count_Val_long by done. done.
Qed.

(** C6.  A call on a descriptor that is not open fails with the exception
    [Unix_error (EBADF, "read", _)]: an exception carrying the operation
    name and the error code of the system call, not a returned sentinel; the
    OCaml buffers, the destination among them, are left as they were.
    (The call must get as far as the [read]: the staging buffer is
    allocated.) *)
Theorem unix_read_bad_descriptor fd buf ofs len w :
  is_int fd -> w_files w !! fd = None -> staging_fits w len ->
  exists w' t,
    unix_read fd buf ofs len w =
      (Exn (Unix_error EBADF "read" EmptyString), w', t) /\
    w_errno w' = EBADF /\ w_caml w' = w_caml w.
Proof.
  intros Hfd Hclosed Hfit. unfold staging_fits in Hfit.
  assert (sys_read (staged w (stage_size (Val_long len)))
            (Int_val (Val_int fd)) (staging_base w)
            (read_count (Val_long len)) =
          (-1, set_errno EBADF (staged w (stage_size (Val_long len)))))
    as Hsys.
  { rewrite Int_val_Val_int by done. now apply sys_read_closed. }
  unfold unix_read. rewrite (stub_read_failed _ _ _ _ _ _ Hfit Hsys).
  eexists _, _. split; [reflexivity|]. done.
Qed.

Lemma zlen_zero {A} (l : list A) : zlen l = 0 -> l = [].
Proof. unfold zlen. destruct l; [done|simpl; lia]. Qed.

(** C7.  Whenever the underlying [read] yields zero bytes the call
    succeeds, returns 0 and leaves the OCaml buffers, the destination among
    them, as they were.  That is what happens for a call with [len = 0] and
    for a call on a descriptor at end-of-stream. *)
Theorem unix_read_zero_bytes :
  (forall fd buf ofs len w r w' t d fd' a c,
     is_ocaml_int ofs -> w_caml w !! buf = Some d -> 0 <= ofs <= zlen d ->
     unix_read fd buf ofs len w = (r, w', t) ->
     In (EvRead fd' a c 0) t ->
     r = Val (Val_long 0) /\ w_caml w' = w_caml w)
  /\
  (forall fd buf ofs len w f d,
     is_int fd -> 0 <= ofs -> 0 <= len <= INT_MAX ->
     ofs + len <= zlen d -> zlen d <= Max_long ->
     w_files w !! fd = Some f -> w_caml w !! buf = Some d ->
     staging_fits w len -> w_limit w <= TASK_SIZE_MAX ->
     len = 0 \/ f = [] ->
     exists w' t,
       unix_read fd buf ofs len w = (Val (Val_long 0), w', t) /\
       In (EvRead fd (staging_base w) len 0) t /\
       w_caml w' = w_caml w).
Proof.
  split.
  - intros fd buf ofs len w r w' t d fd' a c Hofs Hd Ho Hrun Hin.
    unfold unix_read in Hrun. apply stub_path_complete in Hrun.
    inversion Hrun as [Ha|w2 Ha Hsys|f bs f' d0 Ha Hf Hacc Hr Hd0 Ho' Hb
                      |n w2 Ha Hsys Hn Hbad]; subst; simpl in Hin.
    + destruct Hin as [?|[]]. done.
    + unfold ev_alloc, ev_read in Hin.
      destruct Hin as [?|[?|[?|[?|[]]]]]; done.
    + unfold ev_alloc, ev_read in Hin.
      destruct Hin as [?|[?|[E|[?|[?|[?|[]]]]]]]; try done.
      injection E as _ _ _ E. apply zlen_zero in E as ->.
      rewrite Long_val_Val_long by done. fold (splice d0 ofs []).
      assert (d0 = d) as -> by congruence.
      rewrite splice_nil by lia. split; [done|]. simpl. now apply insert_id.
    + unfold ev_alloc, ev_read in Hin.
      destruct Hin as [?|[?|[E|[?|[?|[]]]]]]; try done.
      injection E as _ _ _ ->. exfalso. apply (Hbad d Hd).
      rewrite Long_val_Val_long by done. lia.
  - intros fd buf ofs len w f d Hfd Ho Hlen Hb Hd Hf Hc Hfit Hlim Hzero.
    assert (exists f', file_read f len = ReadBytes [] f') as [f' Hr].
    { destruct Hzero as [->| ->].
      - exists f. apply file_read_zero.
      - exists []. apply file_read_eof. }
    eexists _, _.
    rewrite (unix_read_succeeds fd buf ofs len w f d [] f'); try done.
    split; [reflexivity|]. split; [simpl; tauto|]. simpl.
    rewrite splice_nil by done. now apply insert_id.
Qed.

(** C8.  A call makes at most one [read], and exactly one once the staging
    buffer is allocated: there is no retry.  An interrupted [read] is
    surfaced as the exception [Unix_error (EINTR, "read", _)] and the rest of
    the stream is not consumed.  On a descriptor over the six bytes A..F,
    two calls with [len = 4] return 4, copying A B C D, and then 2, copying
    E F. *)
Theorem unix_read_single_read :
  (forall fd buf ofs len w,
     (count_reads (unix_read fd buf ofs len w).2 <= 1)%nat /\
     (staging_fits w len ->
      count_reads (unix_read fd buf ofs len w).2 = 1%nat))
  /\
  (forall fd buf ofs len w f,
     is_int fd -> 0 < len <= INT_MAX ->
     staging_fits w len -> w_limit w <= TASK_SIZE_MAX ->
     w_files w !! fd = Some (Fail EINTR :: f) ->
     exists w' t,
       unix_read fd buf ofs len w =
         (Exn (Unix_error EINTR "read" EmptyString), w', t) /\
       count_reads t = 1%nat /\
       w_files w' !! fd = Some f /\ w_caml w' = w_caml w)
  /\
  (exists w1 t1 w2 t2,
     unix_read 3 1000 0 4 world_6 = (Val (Val_long 4), w1, t1) /\
     w_caml w1 !! 1000 =
       Some (["A"; "B"; "C"; "D"]%byte ++ replicate 4 sentinel) /\
     unix_read 3 1000 4 4 w1 = (Val (Val_long 2), w2, t2) /\
     w_caml w2 !! 1000 =
       Some (["A"; "B"; "C"; "D"; "E"; "F"]%byte ++ replicate 2 sentinel) /\
     count_reads t1 = 1%nat /\ count_reads t2 = 1%nat).
Proof.
  split; [|split].
  - intros fd buf ofs len w.
    destruct (unix_read fd buf ofs len w) as [[r w'] t] eqn:Hrun.
    unfold unix_read in Hrun. apply stub_path_complete in Hrun.
    unfold staging_fits. simpl.
    inversion Hrun; subst; unfold count_reads; simpl; split; lia.
  - intros fd buf ofs len w f Hfd Hlen Hfit Hlim Hf.
    assert (0 <= len <= INT_MAX) as Hlen' by lia.
    pose proof (staging_access_ok w len Hlen' Hfit Hlim) as Hacc.
    unfold staging_fits in Hfit.
    assert (sys_read (staged w (stage_size (Val_long len)))
              (Int_val (Val_int fd)) (staging_base w)
              (read_count (Val_long len)) =
            (-1, set_errno EINTR
                   (set_files (<[fd := f]> (w_files w))
                      (staged w (stage_size (Val_long len)))))) as Hsys.
    { rewrite Int_val_Val_int by done.
      rewrite (sys_read_error (staged w (stage_size (Val_long len))) _ _ _
                 (Fail EINTR :: f) EINTR f); try done.
      rewrite read_count_Val_long by done.
      unfold file_read. destruct (Z.eqb_spec len 0); [lia|done]. }
    unfold unix_read. rewrite (stub_read_failed _ _ _ _ _ _ Hfit Hsys).
    eexists _, _. split; [reflexivity|]. simpl.
    split; [done|]. split; [apply lookup_insert_eq|done].
  - eexists _, _, _, _.
    split; [vm_compute; reflexivity|].
    split; [vm_compute; reflexivity|].
    split; [vm_compute; reflexivity|].
    split; [vm_compute; reflexivity|].
    split; vm_compute; reflexivity.
Qed.

(** C9.  The buffer handed to [read] is the one [posix_memalign] returned
    for the alignment [BLOCK_SIZE = 512] and the size [len]: its address is
    a multiple of 512, it is a live block of exactly [len] bytes when the
    system call starts and when it returns, and in the log it is allocated
    before the [read] and not freed before the [read] is over. *)
Theorem unix_read_staging_aligned fd buf ofs len w r w' t fd' a c n :
  0 <= len <= Max_long ->
  unix_read fd buf ofs len w = (r, w', t) ->
  In (EvRead fd' a c n) t ->
  BLOCK_SIZE = 512 /\ a mod 512 = 0 /\
  (exists post,
     t = EvMemalign BLOCK_SIZE len 0 a :: EvEnterBlocking
         :: EvRead fd' a c n :: EvLeaveBlocking :: post) /\
  (exists w2,
     sys_read (staged w len) fd' a c = (n, w2) /\
     w_blocks (staged w len) !! a = Some len /\
     w_blocks w2 !! a = Some len).
Proof.
  intros Hlen Hrun Hin.
  unfold unix_read in Hrun. apply stub_path_complete in Hrun.
  assert (forall w2 post,
            sys_read (staged w (stage_size (Val_long len)))
              (Int_val (Val_int fd)) (staging_base w)
              (read_count (Val_long len)) = (n, w2) ->
            EvRead fd' a c n =
              ev_read w (Val_int fd) (Val_long len) n ->
            t = ev_alloc w (Val_long len) :: EvEnterBlocking
                :: ev_read w (Val_int fd) (Val_long len) n
                :: EvLeaveBlocking :: post ->
            BLOCK_SIZE = 512 /\ a mod 512 = 0 /\
            (exists post,
               t = EvMemalign BLOCK_SIZE len 0 a :: EvEnterBlocking
                   :: EvRead fd' a c n :: EvLeaveBlocking :: post) /\
            (exists w2,
               sys_read (staged w len) fd' a c = (n, w2) /\
               w_blocks (staged w len) !! a = Some len /\
               w_blocks w2 !! a = Some len)) as Hgen.
  { intros w2 post Hsys E Ht. unfold ev_read in E.
    injection E as -> -> ->.
    rewrite stage_size_Val_long in Hsys by done.
    split; [done|]. split; [apply staging_base_aligned|].
    split.
    - exists post. rewrite Ht. unfold ev_alloc, ev_read.
      now rewrite stage_size_Val_long.
    - exists w2. split; [done|].
      assert (w_blocks (staged w len) !! staging_base w = Some len) as Hl
        by (simpl; apply lookup_insert_eq).
      split; [done|]. now rewrite (sys_read_blocks _ _ _ _ _ _ Hsys). }
  inversion Hrun as [Ha|w2 Ha Hsys|f bs f' d0 Ha Hf Hacc Hr Hd0 Ho' Hb
                    |n0 w2 Ha Hsys Hn Hbad]; subst; simpl in Hin.
  - destruct Hin as [?|[]]. done.
  - unfold ev_alloc in Hin.
    destruct Hin as [?|[?|[E|[?|[]]]]]; try done.
    assert (n = -1) as -> by (unfold ev_read in E; congruence).
    now apply (Hgen w' []).
  - unfold ev_alloc in Hin.
    destruct Hin as [?|[?|[E|[?|[?|[?|[]]]]]]]; try done.
    assert (n = zlen bs) as -> by (unfold ev_read in E; congruence).
    assert (w_blocks (staged w (stage_size (Val_long len)))
              !! staging_base w = Some (stage_size (Val_long len))) as Hl
      by (simpl; apply lookup_insert_eq).
    pose proof (sys_read_bytes (staged w (stage_size (Val_long len)))
                  _ _ _ f bs f' _ Hf Hacc Hr Hl
                  (read_fits_staging _ _ _ _ _ Hacc Hr)) as Hsys.
    eapply (Hgen _ _ Hsys); [done|reflexivity].
  - unfold ev_alloc in Hin.
    destruct Hin as [?|[?|[E|[?|[?|[]]]]]]; try done.
    assert (n = n0) as -> by (unfold ev_read in E; congruence).
    now eapply (Hgen w').
Qed.

(** ** The destination is only written *)

Lemma sub_bytes_splice d ofs bs :
  0 <= ofs -> ofs + zlen bs <= zlen d ->
  sub_bytes (splice d ofs bs) ofs (zlen bs) = bs.
Proof.
  intros Ho Hb. unfold sub_bytes, zlen. rewrite Nat2Z.id.
  now apply splice_written.
Qed.

(** The kernel does not look at the OCaml heap. *)
Lemma sys_read_set_caml c w fd buf count :
  sys_read (set_caml c w) fd buf count =
  (let '(n, w') := sys_read w fd buf count in (n, set_caml c w')).
Proof.
  unfold sys_read, in_block. simpl.
  destruct (w_files w !! fd) as [f|]; [|done].
  destruct (access_ok buf count); simpl; [|done].
  destruct (file_read f count) as [bs f'|e f']; [|done].
  destruct (w_blocks w !! buf) as [size|]; [|done].
  now destruct ((0 <=? zlen bs) && (zlen bs <=? size)).
Qed.

Lemma sys_read_with_dest w b d size fd buf count n w' :
  sys_read (staged (with_dest w b d) size) fd buf count = (n, w') ->
  exists w0,
    sys_read (staged w size) fd buf count = (n, w0) /\
    w' = set_caml (<[b := d]> (w_caml w)) w0 /\
    forall d', sys_read (staged (with_dest w b d') size) fd buf count =
               (n, set_caml (<[b := d']> (w_caml w)) w0).
Proof.
  intros H.
  change (staged (with_dest w b d) size)
    with (set_caml (<[b := d]> (w_caml w)) (staged w size)) in H.
  rewrite sys_read_set_caml in H.
  destruct (sys_read (staged w size) fd buf count) as [n0 w0] eqn:E.
  injection H as -> <-. exists w0. split; [done|]. split; [done|].
  intros d'.
  change (staged (with_dest w b d') size)
    with (set_caml (<[b := d']> (w_caml w)) (staged w size)).
  rewrite sys_read_set_caml. now rewrite E.
Qed.

(** A path from a world is a path from the world with other contents in
    the destination: same result, same log, same final world up to the
    OCaml heap. *)
Lemma stub_path_with_dest fd buf ofs len w d1 d2 r w1 t :
  length d1 = length d2 ->
  stub_path fd buf ofs len (with_dest w buf d1) r w1 t ->
  exists w2,
    stub_path fd buf ofs len (with_dest w buf d2) r w2 t /\
    set_caml ∅ w1 = set_caml ∅ w2 /\
    delete buf (w_caml w1) = delete buf (w_caml w2) /\
    (forall v, r = Val v ->
       exists bs,
         v = Val_long (zlen bs) /\
         0 <= Long_val ofs /\ Long_val ofs + zlen bs <= zlen d1 /\
         w_caml w1 !! buf = Some (splice d1 (Long_val ofs) bs) /\
         w_caml w2 !! buf = Some (splice d2 (Long_val ofs) bs)).
Proof.
  intros Hlen Hp.
  assert (zlen d1 = zlen d2) as Hz by (unfold zlen; now rewrite Hlen).
  inversion Hp as [Ha|w' Ha Hsys|f bs f' d0 Ha Hf Hacc Hr Hd0 Ho Hb
                  |n w' Ha Hsys Hn Hbad]; subst.
  all: change (ev_alloc (with_dest w buf d1) len)
         with (ev_alloc (with_dest w buf d2) len);
       change (ev_read (with_dest w buf d1) fd len)
         with (ev_read (with_dest w buf d2) fd len);
       change (staging_base (with_dest w buf d1))
         with (staging_base (with_dest w buf d2)) in *;
       change (w_limit (with_dest w buf d1))
         with (w_limit (with_dest w buf d2)) in *.
  - exists (set_errno ENOMEM (with_dest w buf d2)).
    split; [apply path_alloc_failed; exact Ha|].
    split; [done|]. split; [|done].
    simpl. now rewrite !delete_insert_eq.
  - apply sys_read_with_dest in Hsys as (w0 & H0 & -> & Hall).
    exists (set_caml (<[buf := d2]> (w_caml w)) w0).
    change (w_errno (set_caml (<[buf := d1]> (w_caml w)) w0))
      with (w_errno (set_caml (<[buf := d2]> (w_caml w)) w0)).
    split; [apply path_read_failed; [exact Ha|apply Hall]|].
    split; [done|]. split; [|done].
    simpl. now rewrite !delete_insert_eq.
  - simpl in Hd0. rewrite lookup_insert_eq in Hd0. injection Hd0 as <-.
    eexists. split.
    + apply path_copied with (f := f) (bs := bs) (f' := f') (d := d2);
        try done; [simpl; apply lookup_insert_eq|lia].
    + split; [reflexivity|]. simpl. split.
      * now rewrite !delete_insert_eq.
      * intros v [= <-]. exists bs. rewrite !lookup_insert_eq.
        repeat split; done.
  - apply sys_read_with_dest in Hsys as (w0 & H0 & -> & Hall).
    exists (set_caml (<[buf := d2]> (w_caml w)) w0).
    split.
    + apply path_fault; [done|apply Hall|done|].
      intros d'. simpl. rewrite lookup_insert_eq. intros [= <-].
      rewrite <- Hz. apply (Hbad d1). simpl. apply lookup_insert_eq.
    + split; [done|]. split; [|done].
      simpl. now rewrite !delete_insert_eq.
Qed.

(** C10.  The destination is output only.  Two calls that differ only in
    the initial contents of the destination end the same way: the same
    result (the same byte count [n] on success), the same log of calls, the
    same final state outside the destination, and the same bytes in
    [dest[ofs .. ofs+n)]. *)
Theorem unix_read_dest_output_only fd buf ofs len w d1 d2 r1 w1 t1 r2 w2 t2 :
  is_ocaml_int ofs ->
  length d1 = length d2 ->
  unix_read fd buf ofs len (with_dest w buf d1) = (r1, w1, t1) ->
  unix_read fd buf ofs len (with_dest w buf d2) = (r2, w2, t2) ->
  r1 = r2 /\ t1 = t2 /\
  set_caml ∅ w1 = set_caml ∅ w2 /\
  delete buf (w_caml w1) = delete buf (w_caml w2) /\
  (forall v, r1 = Val v ->
     exists n d1' d2',
       v = Val_long n /\ 0 <= n /\
       w_caml w1 !! buf = Some d1' /\ w_caml w2 !! buf = Some d2' /\
       sub_bytes d1' ofs n = sub_bytes d2' ofs n).
Proof.
  intros Hofs Hlen Hrun1 Hrun2. unfold unix_read in *.
  apply stub_path_complete in Hrun1.
  destruct (stub_path_with_dest _ _ _ _ _ _ d2 _ _ _ Hlen Hrun1)
    as (w2' & Hp2 & Hw & Hc & Hv).
  apply stub_path_sound in Hp2. rewrite Hrun2 in Hp2.
  injection Hp2 as -> -> ->.
  repeat split; try done.
  intros v Ev. destruct (Hv v Ev) as (bs & -> & Ho & Hb & H1 & H2).
  rewrite Long_val_Val_long in * by done.
  exists (zlen bs), (splice d1 ofs bs), (splice d2 ofs bs).
  repeat split; try done; [apply zlen_nonneg|].
  rewrite !sub_bytes_splice; try done.
  unfold zlen in *. lia.
Qed.

(** C3.  If the aligned allocation of the staging buffer fails, the call
    fails with the exception [Unix_error] raised under the name
    "read/posix_memalign" and carrying the allocator's error code: the code
    [posix_memalign] returned, as the log shows, which is [ENOMEM].  The
    staging buffer was never obtained and nothing is released: the live
    blocks are those from before the call and the log has no [free]. *)
Theorem unix_read_alloc_failure fd buf ofs len w r w' t :
  ~ staging_fits w len ->
  unix_read fd buf ofs len w = (r, w', t) ->
  exists code,
    t = [EvMemalign BLOCK_SIZE (stage_size (Val_long len)) code NULL] /\
    code = ENOMEM /\ code <> 0 /\
    r = Exn (Unix_error code "read/posix_memalign" EmptyString) /\
    w_blocks w' = w_blocks w /\ frees t = [].
Proof.
  intros Hfit Hrun. unfold staging_fits in Hfit. unfold unix_read in Hrun.
  apply stub_path_complete in Hrun.
  inversion Hrun as [Ha| | |]; subst; try lia.
  exists ENOMEM. repeat split; done.
Qed.

(** ** Defects *)

(** Whenever the call ends with the exception of the [read] step, the
    staging buffer is still allocated and no [free] was made. *)
Lemma read_failure_leaks fd buf ofs len w e arg w' t :
  unix_read fd buf ofs len w = (Exn (Unix_error e "read" arg), w', t) ->
  w_blocks w' !! staging_base w = Some (stage_size (Val_long len)) /\
  forall p, ~ In (EvFree p) t.
Proof.
  intros Hrun. unfold unix_read in Hrun. apply stub_path_complete in Hrun.
  inversion Hrun as [|w2 Ha Hsys| |]; subst.
  split.
  - rewrite (sys_read_blocks _ _ _ _ _ _ Hsys). simpl. apply lookup_insert_eq.
  - intros p [?|[?|[?|[?|[]]]]]; done.
Qed.

(** C1.  On the descriptor 7, which is not open, the [read] fails and the
    call raises [Unix_error (EBADF, "read", _)]; the 4-byte staging buffer
    allocated at 4096 is still a live block afterwards and the log has no
    [free]: the buffer is leaked on the read-error path. *)
Theorem read_error_leaks_staging :
  exists w' t,
    unix_read 7 1000 0 4 world_6 =
      (Exn (Unix_error EBADF "read" EmptyString), w', t) /\
    w_blocks world_6 !! 4096 = None /\
    w_blocks w' !! 4096 = Some 4 /\
    t = [EvMemalign 512 4 0 4096; EvEnterBlocking; EvRead 7 4096 4 (-1);
         EvLeaveBlocking] /\
    ~ In (EvFree 4096) t.
Proof.
  eexists _, _. split; [vm_compute; reflexivity|].
  split; [vm_compute; reflexivity|].
  split; [vm_compute; reflexivity|].
  split; [vm_compute; reflexivity|].
  intros [?|[?|[?|[?|[]]]]]; done.
Qed.

(** C2.  A call with [len = 2^32], whatever the destination holds: the
    staging buffer is allocated with 2^32 bytes, but the count passed to
    [read] is 0, the low 32 bits of the length, and the call returns 0
    without consuming anything from the descriptor. *)
Theorem read_count_truncated (d : list byte) :
  exists w',
    unix_read 3 1000 0 (2 ^ 32) (with_dest world_6 1000 d) =
      (Val (Val_long 0), w',
       [EvMemalign 512 (2 ^ 32) 0 4096; EvEnterBlocking;
        EvRead 3 4096 0 0; EvLeaveBlocking; EvMemmove 1000 0 4096 0;
        EvFree 4096]) /\
    w_files w' !! 3 = Some [Data ABCDEF].
Proof.
  eexists. unfold unix_read.
  rewrite (stub_copied _ _ _ _ _ [Data ABCDEF] [] [Data ABCDEF] d).
  - split; [reflexivity|]. vm_compute. reflexivity.
  - vm_compute. discriminate.
  - vm_compute. reflexivity.
  - vm_compute. reflexivity.
  - vm_compute. reflexivity.
  - simpl. apply lookup_insert_eq.
  - vm_compute. discriminate.
  - change (Long_val (Val_long 0)) with 0. pose proof (zlen_nonneg d).
    change (zlen (@nil byte)) with 0. lia.
Qed.

(** ** The claims at concrete inputs *)

(** With 4 KiB of memory left and [errno = ENOENT] from an earlier call,
    a call for 1 MiB raises [ENOMEM], not the stale [ENOENT]. *)
Lemma unix_read_alloc_failure_witness :
  w_errno low_memory_world = ENOENT /\
  exists code,
    (unix_read 3 1000 0 1048576 low_memory_world).2 =
      [EvMemalign BLOCK_SIZE (stage_size (Val_long 1048576)) code NULL] /\
    code = ENOMEM /\ code <> 0 /\
    (unix_read 3 1000 0 1048576 low_memory_world).1.1 =
      Exn (Unix_error code "read/posix_memalign" EmptyString) /\
    w_blocks (unix_read 3 1000 0 1048576 low_memory_world).1.2 =
      w_blocks low_memory_world /\
    frees (unix_read 3 1000 0 1048576 low_memory_world).2 = [].
Proof.
  split; [reflexivity|].
  apply (unix_read_alloc_failure 3 1000 0 1048576 low_memory_world).
  - vm_compute. intros H. apply H. reflexivity.
  - vm_compute. reflexivity.
Defined.

(** Ten bytes available, 20 asked for at offset 5 of a 25-byte buffer: the
    call returns 10, [dest[5..15)] holds the ten bytes and the rest of the
    buffer still holds the sentinel. *)
Lemma unix_read_copies_exactly_witness :
  run_10.1.1 = Val (Val_long 10) /\
  w_caml run_10.1.2 !! 1000 =
    Some (replicate 5 sentinel ++ digits ++ replicate 10 sentinel) /\
  exists f bs f' d',
    w_files world_10 !! 3 = Some f /\ file_bytes f = bs ++ file_bytes f' /\
    w_files run_10.1.2 = <[3 := f']> (w_files world_10) /\
    Val_long 10 = Val_long (zlen bs) /\
    0 <= 5 /\ 5 + zlen bs <= zlen (replicate 25 sentinel) /\
    w_caml run_10.1.2 = <[1000 := d']> (w_caml world_10) /\
    d' = splice (replicate 25 sentinel) 5 bs /\
    length d' = length (replicate 25 sentinel) /\
    (forall i : nat, (i < length bs)%nat ->
       d' !! (Z.to_nat 5 + i)%nat = bs !! i) /\
    (forall j : nat, (j < Z.to_nat 5 \/ Z.to_nat 5 + length bs <= j)%nat ->
       d' !! j = replicate 25 sentinel !! j).
Proof.
  split; [vm_compute; reflexivity|]. split; [vm_compute; reflexivity|].
  apply (unix_read_copies_exactly 3 1000 5 20 world_10 (Val_long 10)
           run_10.1.2 run_10.2 (replicate 25 sentinel)).
  - int_range.
  - int_range.
  - vm_compute. reflexivity.
  - vm_compute. reflexivity.
Defined.

Lemma unix_read_count_bounds_witness :
  exists n fd' a c o,
    Val_long 10 = Val_long n /\ 0 <= n <= 20 /\
    run_10.2 =
      [EvMemalign BLOCK_SIZE 20 0 a; EvEnterBlocking; EvRead fd' a c n;
       EvLeaveBlocking; EvMemmove 1000 o a n; EvFree a].
Proof.
  apply (unix_read_count_bounds 3 1000 5 20 world_10 (Val_long 10)
           run_10.1.2 run_10.2).
  - unfold Max_long. lia.
  - vm_compute. reflexivity.
Defined.

Lemma unix_read_bad_descriptor_witness :
  exists w' t,
    unix_read 7 1000 0 4 world_6 =
      (Exn (Unix_error EBADF "read" EmptyString), w', t) /\
    w_errno w' = EBADF /\ w_caml w' = w_caml world_6.
Proof.
  apply (unix_read_bad_descriptor 7 1000 0 4 world_6).
  - int_range.
  - vm_compute. reflexivity.
  - vm_compute. discriminate.
Defined.

Lemma unix_read_zero_bytes_witness :
  ((unix_read 3 1000 2 0 world_6).1.1 = Val (Val_long 0) /\
   w_caml (unix_read 3 1000 2 0 world_6).1.2 = w_caml world_6)
  /\
  (exists w' t,
     unix_read 3 1000 0 4 world_eof = (Val (Val_long 0), w', t) /\
     In (EvRead 3 (staging_base world_eof) 4 0) t /\
     w_caml w' = w_caml world_eof).
Proof.
  split.
  - apply (proj1 unix_read_zero_bytes 3 1000 2 0 world_6
             (unix_read 3 1000 2 0 world_6).1.1
             (unix_read 3 1000 2 0 world_6).1.2
             (unix_read 3 1000 2 0 world_6).2
             (replicate 8 sentinel) 3 4096 0).
    + int_range.
    + vm_compute. reflexivity.
    + vm_compute. split; discriminate.
    + vm_compute. reflexivity.
    + vm_compute. tauto.
  - apply (proj2 unix_read_zero_bytes 3 1000 0 4 world_eof []
             (replicate 8 sentinel)).
    + int_range.
    + lia.
    + unfold INT_MAX. lia.
    + vm_compute. discriminate.
    + vm_compute. discriminate.
    + vm_compute. reflexivity.
    + vm_compute. reflexivity.
    + vm_compute. discriminate.
    + vm_compute. discriminate.
    + now right.
Defined.

Lemma unix_read_single_read_witness :
  count_reads (unix_read 3 1000 0 4 world_6).2 = 1%nat /\
  exists w' t,
    unix_read 3 1000 0 4 world_intr =
      (Exn (Unix_error EINTR "read" EmptyString), w', t) /\
    count_reads t = 1%nat /\
    w_files w' !! 3 = Some [Data ABCDEF] /\ w_caml w' = w_caml world_intr.
Proof.
  split.
  - apply (proj2 (proj1 unix_read_single_read 3 1000 0 4 world_6)).
    vm_compute. discriminate.
  - apply (proj1 (proj2 unix_read_single_read) 3 1000 0 4 world_intr
             [Data ABCDEF]).
    + int_range.
    + unfold INT_MAX. lia.
    + vm_compute. discriminate.
    + vm_compute. discriminate.
    + vm_compute. reflexivity.
Defined.

Lemma unix_read_staging_aligned_witness :
  BLOCK_SIZE = 512 /\ 4096 mod 512 = 0 /\
  (exists post,
     run_10.2 = EvMemalign BLOCK_SIZE 20 0 4096 :: EvEnterBlocking
                :: EvRead 3 4096 20 10 :: EvLeaveBlocking :: post) /\
  (exists w2,
     sys_read (staged world_10 20) 3 4096 20 = (10, w2) /\
     w_blocks (staged world_10 20) !! 4096 = Some 20 /\
     w_blocks w2 !! 4096 = Some 20).
Proof.
  apply (unix_read_staging_aligned 3 1000 5 20 world_10 run_10.1.1
           run_10.1.2 run_10.2 3 4096 20 10).
  - unfold Max_long. lia.
  - vm_compute. reflexivity.
  - vm_compute. tauto.
Defined.

Lemma unix_read_dest_output_only_witness :
  let run1 := unix_read 3 1000 2 4 (with_dest world_6 1000 (replicate 8 sentinel)) in
  let run2 := unix_read 3 1000 2 4 (with_dest world_6 1000 zeros) in
  run1.1.1 = run2.1.1 /\ run1.2 = run2.2 /\
  set_caml ∅ run1.1.2 = set_caml ∅ run2.1.2 /\
  delete 1000 (w_caml run1.1.2) = delete 1000 (w_caml run2.1.2) /\
  (forall v, run1.1.1 = Val v ->
     exists n d1' d2',
       v = Val_long n /\ 0 <= n /\
       w_caml run1.1.2 !! 1000 = Some d1' /\
       w_caml run2.1.2 !! 1000 = Some d2' /\
       sub_bytes d1' 2 n = sub_bytes d2' 2 n).
Proof.
  intros run1 run2.
  apply (unix_read_dest_output_only 3 1000 2 4 world_6
           (replicate 8 sentinel) zeros
           run1.1.1 run1.1.2 run1.2 run2.1.1 run2.1.2 run2.2).
  - int_range.
  - reflexivity.
  - vm_compute. reflexivity.
  - vm_compute. reflexivity.
Defined.

(** * Further properties of the call *)



(** What [read] returned never exceeds the size of the staging buffer. *)
Lemma sys_read_ret_le_stage_size w len fd a n w' :
  sys_read w fd a (read_count len) = (n, w') -> n <= stage_size len.
Proof.
  intros H. destruct (sys_read_inv _ _ _ _ _ _ H)
    as [(-> & _)|(f & bs & f' & _ & Hacc & Hr & _ & -> & _)].
  - unfold stage_size, to_size_t, wrap_unsigned, long_bits.
    pose proof (Z.mod_pos_bound (Long_val len) (2 ^ 64)). lia.
  - now apply read_fits_staging with (a := a) (f := f) (f' := f').
Qed.

Lemma staging_base_ge_brk w : w_brk w <= staging_base w.
Proof.
  pose proof (align_up_ge (Z.max (w_brk w) 1) BLOCK_SIZE).
  unfold staging_base, alloc_base, BLOCK_SIZE in *. lia.
Qed.

Lemma heap_wf_fresh w : heap_wf w -> w_blocks w !! staging_base w = None.
Proof.
  intros Hwf. destruct (w_blocks w !! staging_base w) as [size|] eqn:E; [|done].
  apply Hwf in E. pose proof (staging_base_ge_brk w). lia.
Qed.

(** What a returning call has done, in terms of the descriptor and the
    destination. *)
Lemma unix_read_returns fd buf ofs len w v w' t f d :
  is_int fd -> is_ocaml_int ofs ->
  w_files w !! fd = Some f -> w_caml w !! buf = Some d ->
  unix_read fd buf ofs len w = (Val v, w', t) ->
  exists bs f',
    v = Val_long (zlen bs) /\ file_bytes f = bs ++ file_bytes f' /\
    w_files w' !! fd = Some f' /\
    w_caml w' !! buf = Some (splice d ofs bs) /\
    0 <= ofs /\ ofs + zlen bs <= zlen d.
Proof.
  intros Hfd Hofs Hf Hd Hrun. unfold unix_read in Hrun.
  apply stub_path_complete in Hrun.
  inversion Hrun as [| |f0 bs f' d0 Ha Hf0 Hacc Hr Hd0 Ho Hb|]; subst.
  rewrite Int_val_Val_int in * by done.
  rewrite Long_val_Val_long in * by done.
  assert (d0 = d) as -> by congruence.
  assert (f0 = f) as -> by congruence.
  exists bs, f'. simpl. rewrite !lookup_insert_eq.
  repeat split; try done.
  now apply file_read_bytes with (count := read_count (Val_long len)).
Qed.

(** X1.  A call that returns has freed its staging buffer: exactly one
    [free] is made, of the pointer [posix_memalign] returned, and the live
    blocks of the C heap are those from before the call. *)
Theorem unix_read_success_frees fd buf ofs len w v w' t :
  heap_wf w ->
  unix_read fd buf ofs len w = (Val v, w', t) ->
  w_blocks w' = w_blocks w /\
  exists size,
    In (EvMemalign BLOCK_SIZE size 0 (staging_base w)) t /\
    frees t = [staging_base w].
Proof.
  intros Hwf Hrun. unfold unix_read in Hrun.
  apply stub_path_complete in Hrun.
  inversion Hrun as [| |f bs f' d0 Ha Hf Hacc Hr Hd0 Ho Hb|]; subst.
  simpl. split.
  - apply delete_id. now apply heap_wf_fresh.
  - exists (stage_size (Val_long len)). split; [now left|done].
Qed.

(** X2.  When the staging buffer cannot be allocated the call raises under
    the name "read/posix_memalign" and has done nothing else: but for
    [errno], which the allocator has set, the world is the one before the
    call (descriptor not consumed, destination not written, nothing
    allocated), and the log holds the failed allocation only: no blocking
    section, no [read], no [free]. *)
Theorem unix_read_alloc_failure_inert fd buf ofs len w r w' t :
  ~ staging_fits w len ->
  unix_read fd buf ofs len w = (r, w', t) ->
  r = Exn (Unix_error ENOMEM "read/posix_memalign" EmptyString) /\
  w' = set_errno ENOMEM w /\
  t = [EvMemalign BLOCK_SIZE (stage_size (Val_long len)) ENOMEM NULL] /\
  count_reads t = 0%nat /\ frees t = [].
Proof.
  intros Hfit Hrun. unfold staging_fits in Hfit. unfold unix_read in Hrun.
  rewrite stub_alloc_failed in Hrun by lia.
  injection Hrun as <- <- <-. done.
Qed.

(** X3.  For a length that fits a C [int], the [read] is made on the
    caller's descriptor, into the staging buffer, for exactly [len]
    bytes. *)
Theorem unix_read_requests_len fd buf ofs len w r w' t :
  is_int fd -> 0 <= len <= INT_MAX -> staging_fits w len ->
  unix_read fd buf ofs len w = (r, w', t) ->
  exists n, In (EvRead fd (staging_base w) len n) t.
Proof.
  intros Hfd Hlen Hfit Hrun. unfold staging_fits in Hfit.
  unfold unix_read in Hrun. apply stub_path_complete in Hrun.
  inversion Hrun as [Ha|w2 Ha Hsys|f bs f' d0 Ha Hf Hacc Hr Hd0 Ho' Hb
                    |n w2 Ha Hsys Hn Hbad]; subst; [lia| | |].
  all: unfold ev_read; rewrite Int_val_Val_int, read_count_Val_long by done.
  - exists (-1). simpl. tauto.
  - exists (zlen bs). simpl. tauto.
  - exists n. simpl. tauto.
Qed.

(** X4.  On a descriptor that holds one run of bytes [bs], under the
    caller's obligations, a call for [len] bytes returns [min len |bs|],
    writes the first that many bytes of [bs] at [ofs] and leaves the
    descriptor holding the rest. *)
Theorem unix_read_single_run fd buf ofs len w bs d :
  is_int fd -> 0 <= ofs -> 0 < len <= MAX_RW_COUNT ->
  ofs + len <= zlen d -> zlen d <= Max_long ->
  w_files w !! fd = Some [Data bs] -> w_caml w !! buf = Some d ->
  staging_fits w len -> w_limit w <= TASK_SIZE_MAX ->
  exists w' t f',
    unix_read fd buf ofs len w = (Val (Val_long (Z.min len (zlen bs))), w', t) /\
    w_caml w' !! buf = Some (splice d ofs (take (Z.to_nat len) bs)) /\
    w_files w' !! fd = Some f' /\
    file_bytes f' = drop (Z.to_nat len) bs.
Proof.
  intros Hfd Ho Hlen Hb Hd Hf Hc Hfit Hlim.
  assert (0 <= len <= INT_MAX) as Hlen'
    by (revert Hlen; unfold MAX_RW_COUNT, INT_MAX; lia).
  assert (file_read [Data bs] len =
          ReadBytes (take (Z.to_nat len) bs)
            (if (Z.to_nat len <? length bs)%nat
             then [Data (drop (Z.to_nat len) bs)] else [])) as Hr.
  { unfold file_read. destruct (Z.eqb_spec len 0); [lia|].
    now rewrite Z.min_l by lia. }
  eexists _, _, _.
  rewrite (unix_read_succeeds fd buf ofs len w [Data bs] d _ _
             Hfd Ho Hlen' Hb Hd Hf Hc Hfit Hlim Hr).
  split; [|split; [|split]].
  - do 3 f_equal. unfold zlen. rewrite length_take. f_equal. lia.
  - simpl. apply lookup_insert_eq.
  - simpl. apply lookup_insert_eq.
  - destruct (Nat.ltb_spec (Z.to_nat len) (length bs)); simpl.
    + apply app_nil_r.
    + symmetry. now apply drop_ge.
Qed.

(** X5.  Two calls in a row on the same descriptor read consecutive parts
    of its stream: the bytes of the first call followed by the bytes of the
    second are a prefix of what the descriptor held, the descriptor is left
    with the rest, and the destination holds both writes. *)
Theorem unix_read_twice fd buf ofs1 len1 ofs2 len2 w f d v1 w1 t1 v2 w2 t2 :
  is_int fd -> is_ocaml_int ofs1 -> is_ocaml_int ofs2 ->
  w_files w !! fd = Some f -> w_caml w !! buf = Some d ->
  unix_read fd buf ofs1 len1 w = (Val v1, w1, t1) ->
  unix_read fd buf ofs2 len2 w1 = (Val v2, w2, t2) ->
  exists bs1 bs2 f2,
    v1 = Val_long (zlen bs1) /\ v2 = Val_long (zlen bs2) /\
    file_bytes f = bs1 ++ bs2 ++ file_bytes f2 /\
    w_files w2 !! fd = Some f2 /\
    w_caml w2 !! buf = Some (splice (splice d ofs1 bs1) ofs2 bs2).
Proof.
  intros Hfd Ho1 Ho2 Hf Hd Hrun1 Hrun2.
  destruct (unix_read_returns _ _ _ _ _ _ _ _ _ _ Hfd Ho1 Hf Hd Hrun1)
    as (bs1 & f1 & -> & Hb1 & Hf1 & Hd1 & _).
  destruct (unix_read_returns _ _ _ _ _ _ _ _ _ _ Hfd Ho2 Hf1 Hd1 Hrun2)
    as (bs2 & f2 & -> & Hb2 & Hf2 & Hd2 & _).
  exists bs1, bs2, f2. repeat split; try done.
  now rewrite Hb1, Hb2.
Qed.

(** X6.  A negative length is not rejected by any check of the stub: it is
    converted to [size_t], which makes it a request for [2^64 + len] bytes,
    and (memory being smaller than that) it is the allocation that fails.
    The call raises [ENOMEM] under the name "read/posix_memalign" and, but
    for [errno], leaves the world as it was. *)
Theorem unix_read_negative_length fd buf ofs len w :
  Min_long <= len < 0 -> w_limit w < 2 ^ 63 ->
  unix_read fd buf ofs len w =
  (Exn (Unix_error ENOMEM "read/posix_memalign" EmptyString),
   set_errno ENOMEM w,
   [EvMemalign BLOCK_SIZE (2 ^ 64 + len) ENOMEM NULL]).
Proof.
  intros Hlen Hlim.
  assert (stage_size (Val_long len) = 2 ^ 64 + len) as Hsize.
  { unfold stage_size. rewrite Long_val_Val_long
      by (revert Hlen; unfold is_ocaml_int, Min_long, Max_long; lia).
    unfold to_size_t, wrap_unsigned, long_bits. symmetry.
    apply (Z.mod_unique len (2 ^ 64) (-1)); revert Hlen; unfold Min_long; lia. }
  pose proof (staging_base_pos w).
  unfold unix_read. rewrite stub_alloc_failed.
  - now rewrite Hsize.
  - rewrite Hsize. revert Hlen Hlim. unfold Min_long. lia.
Qed.

(** X7.  Under the caller's obligation that [len] bytes fit in the
    destination at [ofs], no call goes out of bounds: whatever the
    descriptor delivers, the [memmove] stays inside the destination and
    inside the staging buffer, and the [free] is of a live block. *)
Theorem unix_read_memory_safe fd buf ofs len w d r w' t :
  w_caml w !! buf = Some d ->
  0 <= ofs -> 0 <= len -> ofs + len <= zlen d -> zlen d <= Max_long ->
  unix_read fd buf ofs len w = (r, w', t) ->
  r <> Fault.
Proof.
  intros Hd Ho Hlen Hb Hmax Hrun. unfold unix_read in Hrun.
  apply stub_path_complete in Hrun.
  inversion Hrun as [| | |n w2 Ha Hsys Hn Hbad]; subst; try done.
  exfalso. apply (Hbad d Hd).
  pose proof (sys_read_ret_le_stage_size _ _ _ _ _ _ Hsys) as Hle.
  rewrite stage_size_Val_long in Hle by lia.
  rewrite Long_val_Val_long by (unfold is_ocaml_int, Min_long, Max_long in *; lia).
  lia.
Qed.

(** X8.  In every call the [read], and only the [read], is made inside the
    blocking section; the allocation, the copy into the OCaml buffer and
    the [free] are made outside it, and the section is closed again on
    every path, the one that raises for a failed [read] included. *)
Theorem unix_read_blocking_section fd buf ofs len w :
  bracket_ok false (unix_read fd buf ofs len w).2 = true.
Proof.
  destruct (unix_read fd buf ofs len w) as [[r w'] t] eqn:Hrun.
  unfold unix_read in Hrun. apply stub_path_complete in Hrun.
  inversion Hrun; subst; reflexivity.
Qed.


(** X10.  The [read] never overruns the staging buffer, whatever the
    length: the number of bytes it reports is at most the size that was
    passed to [posix_memalign] for the buffer it is given, although the
    count it is asked for is the length narrowed to [int]. *)
Theorem unix_read_no_overrun fd buf ofs len w r w' t fd' a c n :
  unix_read fd buf ofs len w = (r, w', t) ->
  In (EvRead fd' a c n) t ->
  exists size, In (EvMemalign BLOCK_SIZE size 0 a) t /\ n <= size.
Proof.
  intros Hrun Hin. unfold unix_read in Hrun.
  apply stub_path_complete in Hrun.
  exists (stage_size (Val_long len)).
  inversion Hrun as [Ha|w2 Ha Hsys|f bs f' d0 Ha Hf Hacc Hr Hd0 Ho' Hb
                    |n0 w2 Ha Hsys Hn Hbad]; subst; simpl in Hin.
  - destruct Hin as [?|[]]. done.
  - unfold ev_alloc in *.
    destruct Hin as [?|[?|[E|[?|[]]]]]; try done.
    unfold ev_read in E. injection E as _ <- _ <-.
    split; [now left|].
    now apply (sys_read_ret_le_stage_size _ _ _ _ _ _ Hsys).
  - unfold ev_alloc in *.
    destruct Hin as [?|[?|[E|[?|[?|[?|[]]]]]]]; try done.
    unfold ev_read in E. injection E as _ <- _ <-.
    split; [now left|].
    now apply (read_fits_staging _ _ _ _ _ Hacc Hr).
  - unfold ev_alloc in *.
    destruct Hin as [?|[?|[E|[?|[?|[]]]]]]; try done.
    unfold ev_read in E. injection E as _ <- _ <-.
    split; [now left|].
    now apply (sys_read_ret_le_stage_size _ _ _ _ _ _ Hsys).
Qed.

(** ** The further properties at concrete inputs *)

Lemma unix_read_success_frees_witness :
  w_blocks run_10.1.2 = w_blocks world_10 /\
  exists size,
    In (EvMemalign BLOCK_SIZE size 0 (staging_base world_10)) run_10.2 /\
    frees run_10.2 = [staging_base world_10].
Proof.
  apply (unix_read_success_frees 3 1000 5 20 world_10 (Val_long 10)
           run_10.1.2 run_10.2).
  - intros p size H. vm_compute in H. discriminate.
  - vm_compute. reflexivity.
Defined.

Lemma unix_read_alloc_failure_inert_witness :
  (unix_read 3 1000 0 1048576 low_memory_world).1.1 =
    Exn (Unix_error ENOMEM "read/posix_memalign" EmptyString) /\
  (unix_read 3 1000 0 1048576 low_memory_world).1.2 =
    set_errno ENOMEM low_memory_world /\
  (unix_read 3 1000 0 1048576 low_memory_world).2 =
    [EvMemalign BLOCK_SIZE (stage_size (Val_long 1048576)) ENOMEM NULL] /\
  count_reads (unix_read 3 1000 0 1048576 low_memory_world).2 = 0%nat /\
  frees (unix_read 3 1000 0 1048576 low_memory_world).2 = [].
Proof.
  apply (unix_read_alloc_failure_inert 3 1000 0 1048576 low_memory_world).
  - vm_compute. intros H. apply H. reflexivity.
  - vm_compute. reflexivity.
Defined.

Lemma unix_read_requests_len_witness :
  exists n, In (EvRead 3 (staging_base world_10) 20 n) run_10.2.
Proof.
  apply (unix_read_requests_len 3 1000 5 20 world_10 run_10.1.1 run_10.1.2).
  - int_range.
  - unfold INT_MAX. lia.
  - vm_compute. discriminate.
  - vm_compute. reflexivity.
Defined.

Lemma unix_read_single_run_witness :
  exists w' t f',
    unix_read 3 1000 5 20 world_10 =
      (Val (Val_long (Z.min 20 (zlen digits))), w', t) /\
    w_caml w' !! 1000 =
      Some (splice (replicate 25 sentinel) 5 (take (Z.to_nat 20) digits)) /\
    w_files w' !! 3 = Some f' /\
    file_bytes f' = drop (Z.to_nat 20) digits.
Proof.
  apply (unix_read_single_run 3 1000 5 20 world_10 digits
           (replicate 25 sentinel)).
  - int_range.
  - lia.
  - unfold MAX_RW_COUNT. lia.
  - vm_compute. discriminate.
  - vm_compute. discriminate.
  - vm_compute. reflexivity.
  - vm_compute. reflexivity.
  - vm_compute. discriminate.
  - vm_compute. discriminate.
Defined.

Lemma unix_read_twice_witness :
  exists bs1 bs2 f2,
    Val_long 2 = Val_long (zlen bs1) /\ Val_long 3 = Val_long (zlen bs2) /\
    file_bytes [Data ["A"; "B"]%byte; Data ["C"; "D"; "E"]%byte] =
      bs1 ++ bs2 ++ file_bytes f2 /\
    w_files (unix_read 3 1000 2 4 (unix_read 3 1000 0 4 world_pipe).1.2).1.2
      !! 3 = Some f2 /\
    w_caml (unix_read 3 1000 2 4 (unix_read 3 1000 0 4 world_pipe).1.2).1.2
      !! 1000 = Some (splice (splice (replicate 8 sentinel) 0 bs1) 2 bs2).
Proof.
  apply (unix_read_twice 3 1000 0 4 2 4 world_pipe
           [Data ["A"; "B"]%byte; Data ["C"; "D"; "E"]%byte]
           (replicate 8 sentinel)
           (Val_long 2) (unix_read 3 1000 0 4 world_pipe).1.2
           (unix_read 3 1000 0 4 world_pipe).2
           (Val_long 3)
           (unix_read 3 1000 2 4 (unix_read 3 1000 0 4 world_pipe).1.2).1.2
           (unix_read 3 1000 2 4 (unix_read 3 1000 0 4 world_pipe).1.2).2).
  - int_range.
  - int_range.
  - int_range.
  - vm_compute. reflexivity.
  - vm_compute. reflexivity.
  - vm_compute. reflexivity.
  - vm_compute. reflexivity.
Defined.

Lemma unix_read_negative_length_witness :
  unix_read 3 1000 0 (-1) world_6 =
  (Exn (Unix_error ENOMEM "read/posix_memalign" EmptyString),
   set_errno ENOMEM world_6,
   [EvMemalign BLOCK_SIZE (2 ^ 64 + -1) ENOMEM NULL]).
Proof.
  apply (unix_read_negative_length 3 1000 0 (-1) world_6).
  - unfold Min_long. lia.
  - vm_compute. reflexivity.
Defined.

Lemma unix_read_memory_safe_witness : run_10.1.1 <> Fault.
Proof.
  apply (unix_read_memory_safe 3 1000 5 20 world_10 (replicate 25 sentinel)
           run_10.1.1 run_10.1.2 run_10.2).
  - vm_compute. reflexivity.
  - lia.
  - lia.
  - vm_compute. discriminate.
  - vm_compute. discriminate.
  - vm_compute. reflexivity.
Defined.


Lemma unix_read_no_overrun_witness :
  exists size, In (EvMemalign BLOCK_SIZE size 0 4096) run_10.2 /\ 10 <= size.
Proof.
  apply (unix_read_no_overrun 3 1000 5 20 world_10 run_10.1.1 run_10.1.2
           run_10.2 3 4096 20 10).
  - vm_compute. reflexivity.
  - vm_compute. tauto.
Defined.
